(** * Edge paths and graph camera of the directed-graph component

    A shallow embedding of [paths.ts] (edge geometry and SVG path strings)
    and of [graph_camera.ts] (pan, zoom and their animations), with the
    properties of the specification stated and proved over it.

    Conventions of the embedding.

    - A JavaScript number is an exact real number ([R]).  Rounding error,
      [NaN], the infinities and the sign of zero are outside the model.  A
      value the exact model cannot express is never invented: a division
      whose divisor may be zero, and the read of a coordinate that is
      asserted to be set and is not, end the run with [OutOfModel].
    - [undefined] for an optional field or an array slot is [None].
    - A thrown exception is [Throw e].
    - A mutable object ([Vector], the [points] array of an edge, the camera)
      is threaded explicitly: a mutating method returns the new value. *)

From Stdlib Require Import Reals Lra Lia ZArith List String Bool DecimalString.
From Stdlib Require DecimalZ DecimalFacts.
Import ListNotations.

Open Scope R_scope.

(** ** JavaScript basics *)

Inductive Error : Type :=
| RangeError (message : string)
| ReferenceError (message : string)
| TypeError.

Inductive result (A : Type) : Type :=
| Ok (value : A)
| Throw (e : Error)
| OutOfModel.

Arguments Ok {A} value.
Arguments Throw {A} e.
Arguments OutOfModel {A}.

Definition bind {A B : Type} (c : result A) (k : A -> result B) : result B :=
  match c with
  | Ok a => k a
  | Throw e => Throw e
  | OutOfModel => OutOfModel
  end.

Notation "x <- c ;; k" := (bind c (fun x => k))
  (at level 61, c at next level, right associativity).

Fixpoint mapM {A B : Type} (f : A -> result B) (l : list A) : result (list B) :=
  match l with
  | [] => Ok []
  | a :: l' =>
      b <- f a ;;
      bs <- mapM f l' ;;
      Ok (b :: bs)
  end.

(** The object whose property is about to be read: a TypeError on
    [undefined]. *)
Definition defined {A : Type} (v : option A) : result A :=
  match v with
  | Some a => Ok a
  | None => Throw TypeError
  end.

(** [v!] on an optional number that is then used as a number. *)
Definition nonNull (v : option R) : result R :=
  match v with
  | Some n => Ok n
  | None => OutOfModel
  end.

(** Comparisons of numbers, as booleans. *)
Definition Rltb (a b : R) : bool := if Rlt_dec a b then true else false.
Definition Rleb (a b : R) : bool := if Rle_dec a b then true else false.
Definition Rgtb (a b : R) : bool := Rltb b a.
Definition Reqb (a b : R) : bool := if Req_dec_T a b then true else false.

(** [a / b] where [b] may be zero. *)
Definition divide (a b : R) : result R :=
  if Reqb b 0 then OutOfModel else Ok (a / b).

(** [Math.round]: the nearest integer, a tie going up. *)
Definition Math_round (r : R) : R := IZR (Zfloor (r + / 2)).

(** [Math.pow] at a natural exponent. *)
Definition Math_pow (b : R) (n : nat) : R := b ^ n.

(** [a[i]] on a dense array: [undefined] outside [0 .. length - 1]. *)
Definition item {A : Type} (a : list A) (i : Z) : option A :=
  if (i <? 0)%Z then None else nth_error a (Z.to_nat i).

(** The indices [0 .. length - 1] visited by a counting [for] loop. *)
Definition indices {A : Type} (a : list A) : list Z :=
  map Z.of_nat (seq 0 (List.length a)).

(** An array that may have holes, as [points.length = 2] produces. *)
Definition Slots (A : Type) : Type := list (option A).

(** [a.length = n]: cut the array, or extend it with holes. *)
Definition setLength {A : Type} (n : nat) (a : Slots A) : Slots A :=
  firstn n a ++ repeat None (n - List.length a).

(** [a[i] = v].  Inside the array the slot is replaced; past the end the
    array grows, with holes in between; a negative index is an ordinary
    property and leaves the elements alone. *)
Definition store {A : Type} (i : Z) (v : A) (a : Slots A) : Slots A :=
  if (i <? 0)%Z then a
  else
    let n := Z.to_nat i in
    if (n <? List.length a)%nat
    then firstn n a ++ Some v :: skipn (S n) a
    else a ++ repeat None (n - List.length a) ++ [Some v].

(** The elements of an array, each of them read as an object. *)
Definition dense {A : Type} (a : Slots A) : result (list A) :=
  mapM defined a.

(** [!v] for an optional number: [undefined] and [0] are falsy. *)
Definition not_ (v : option R) : bool :=
  match v with
  | None => true
  | Some n => Reqb n 0
  end.

(** ** model.ts *)

Record Point : Type := mkPoint { px : R; py : R }.

Record Rect : Type := mkRect { top : R; left : R; bottom : R; right : R }.

Inductive RankDirection : Type :=
| TOP_TO_BOTTOM
| BOTTOM_TO_TOP
| LEFT_TO_RIGHT
| RIGHT_TO_LEFT.

(** Only [rankDirection] is read by the path functions. *)
Record LayoutOptions : Type := mkLayout { rankDirection : option RankDirection }.

(** [x] and [y] are set by the layout; until then they are [undefined]. *)
Record Node : Type := mkNode {
  id : string;
  nx : option R;
  ny : option R;
  width : R;
  height : R
}.

Record Edge : Type := mkEdge { src : Node; dest : Node; points : list Point }.

(** ** paths.ts: constants *)

Definition LAYOUT_CURVE_FORCE_PX : R := 20.
Definition SMOOTH_CURVE_FORCE_PX : R := 2.
Definition UNIMPORTANT_POINT_DISTANCE_THRESHOLD_PX : R := 20.

(** ** paths.ts: the Vector class *)

Module Vector.

Record t : Type := mk { x : R; y : R }.

Definition invert (v : t) : t :=
  mk (x v * -1) (y v * -1).

Definition multiplyScalar (v : t) (amount : R) : t :=
  mk (x v * amount) (y v * amount).

Definition dot (v other : t) : R :=
  x v * x other + y v * y other.

Definition length (v : t) : R :=
  sqrt (x v * x v + y v * y v).

Definition normalize (v : t) : t :=
  let length := length v in
  let multiplyBy := if Reqb length 0 then 0 else 1 / length in
  multiplyScalar v multiplyBy.

(** [numDecialPoints] defaults to 0 in the source. *)
Definition round (v : t) (numDecialPoints : nat) : t :=
  let scaleBy := Math_pow 10 numDecialPoints in
  mk (Math_round (x v * scaleBy) / scaleBy)
     (Math_round (y v * scaleBy) / scaleBy).

Definition copy (v : t) : t := mk (x v) (y v).

(** [normalize] again, with its division checked.  [normalize_checked]
    serves to show that [normalize] never divides by zero. *)
Definition normalize_checked (v : t) : result t :=
  let length := length v in
  multiplyBy <- (if Reqb length 0 then Ok 0 else divide 1 length) ;;
  Ok (multiplyScalar v multiplyBy).

End Vector.

(** ** paths.ts: geometric utility functions *)

Definition createVectorBetweenPoints (p1 p2 : Point) : Vector.t :=
  Vector.mk (px p2 - px p1) (py p2 - py p1).

Definition createNewPointOffsetBy (p1 : Point) (v : Vector.t) : Point :=
  mkPoint (px p1 + Vector.x v) (py p1 + Vector.y v).

Definition createPerpendicularVector (v : Vector.t) : Vector.t :=
  Vector.mk (- Vector.y v) (Vector.x v).

Definition getDistanceFromLine (lineStart lineEnd point : Point) : R :=
  let line := createVectorBetweenPoints lineStart lineEnd in
  let line := Vector.normalize line in
  let perpendicularLine := createPerpendicularVector line in
  let toProject := createVectorBetweenPoints lineStart point in
  let distance := Vector.dot toProject perpendicularLine in
  Rabs distance.

(** ** paths.ts: control points *)

Record PathPointData : Type := mkPathPointData {
  point : Point;
  incomingControlPoint : Point;
  outgoingControlPoint : Point
}.

Definition getLayoutVector (layout : LayoutOptions) : Vector.t :=
  match rankDirection layout with
  | Some LEFT_TO_RIGHT => Vector.mk 1 0
  | Some RIGHT_TO_LEFT => Vector.mk (-1) 0
  | Some BOTTOM_TO_TOP => Vector.mk 0 (-1)
  | Some TOP_TO_BOTTOM | None => Vector.mk 0 1
  end.

Definition isLineGoingBackwards (p1 p2 : Point) (layoutDirection : Vector.t)
  : bool :=
  let delta := createVectorBetweenPoints p1 p2 in
  let delta := Vector.mk (Vector.x delta * Vector.x layoutDirection)
                         (Vector.y delta) in
  let delta := Vector.mk (Vector.x delta)
                         (Vector.y delta * Vector.y layoutDirection) in
  Rltb (Vector.x delta) 0 || Rltb (Vector.y delta) 0.

(** The loop of [doesPathGoBackwards] over the consecutive pairs
    [points[i]], [points[i + 1]], leaving at the first backwards line. *)
Fixpoint doesPathGoBackwards_loop (points : list Point)
  (layoutDirection : Vector.t) : bool :=
  match points with
  | point1 :: ((point2 :: _) as rest) =>
      if isLineGoingBackwards point1 point2 layoutDirection then true
      else doesPathGoBackwards_loop rest layoutDirection
  | _ => false
  end.

Definition doesPathGoBackwards (points : list Point) (layout : LayoutOptions)
  : bool :=
  let layoutDirection := getLayoutVector layout in
  doesPathGoBackwards_loop points layoutDirection.

(** [points[i]], [points[i + 1]] and [points[i - 1]] are read before the
    test; [point] is only used after it.  With both neighbours inside the
    array [points[i]] is inside too, so the last case is never reached. *)
Definition isPointUnimportant (points : list Point) (i : Z) : bool :=
  match item points (i + 1), item points (i - 1) with
  | Some next, Some prior =>
      match item points i with
      | Some point =>
          let distance := getDistanceFromLine prior next point in
          Rleb distance UNIMPORTANT_POINT_DISTANCE_THRESHOLD_PX
      | None => false
      end
  | _, _ => false
  end.

Definition getLayoutCurvedControlPoints (point : Point) (layout : LayoutOptions)
  : PathPointData :=
  let layoutForce := getLayoutVector layout in
  let layoutForce := Vector.multiplyScalar layoutForce LAYOUT_CURVE_FORCE_PX in
  let outgoingControlPoint := createNewPointOffsetBy point layoutForce in
  let layoutForce := Vector.invert layoutForce in
  let incomingControlPoint := createNewPointOffsetBy point layoutForce in
  mkPathPointData point incomingControlPoint outgoingControlPoint.

(** With [points[i]] [undefined] one of [next] and [prior] is [undefined]
    too, and reading its coordinate is a TypeError. *)
Definition getSmoothedControlPoints (points : list Point) (i : Z)
  : result PathPointData :=
  point <- defined (item points i) ;;
  let next := match item points (i + 1) with Some p => p | None => point end in
  let prior := match item points (i - 1) with Some p => p | None => point end in
  let smoothForce := createVectorBetweenPoints prior next in
  let smoothForce := Vector.normalize smoothForce in
  let smoothForce := Vector.multiplyScalar smoothForce SMOOTH_CURVE_FORCE_PX in
  let smoothForce := Vector.round smoothForce 2 in
  let outgoingControlPoint := createNewPointOffsetBy point smoothForce in
  let smoothForce := Vector.invert smoothForce in
  let incomingControlPoint := createNewPointOffsetBy point smoothForce in
  Ok (mkPathPointData point incomingControlPoint outgoingControlPoint).

Definition createPointData (points : list Point) (layout : LayoutOptions)
  : result (list PathPointData) :=
  let goesBackwards := doesPathGoBackwards points layout in
  mapM (fun i =>
          if goesBackwards then getSmoothedControlPoints points i
          else if isPointUnimportant points i
               then getSmoothedControlPoints points i
               else point <- defined (item points i) ;;
                    Ok (getLayoutCurvedControlPoints point layout))
       (indices points).

(** ** paths.ts: connector points *)

Record ConnectorPoints : Type := mkConnectorPoints {
  input : Point;
  output : Point
}.

(** [node.x!] and [node.y!]: the source asserts that the layout has set
    the position. *)
Definition getConnectorPointsForNode (node : Node) (layout : LayoutOptions)
  : result ConnectorPoints :=
  x <- nonNull (nx node) ;;
  y <- nonNull (ny node) ;;
  let center := mkPoint x y in
  let input := center in
  let output := center in
  Ok
    match rankDirection layout with
    | Some LEFT_TO_RIGHT =>
        mkConnectorPoints (mkPoint (px input - width node / 2) (py input))
                          (mkPoint (px output + width node / 2) (py output))
    | Some RIGHT_TO_LEFT =>
        mkConnectorPoints (mkPoint (px input + width node / 2) (py input))
                          (mkPoint (px output - width node / 2) (py output))
    | Some BOTTOM_TO_TOP =>
        mkConnectorPoints (mkPoint (px input) (py input + height node / 2))
                          (mkPoint (px output) (py output - height node / 2))
    | Some TOP_TO_BOTTOM | None =>
        mkConnectorPoints (mkPoint (px input) (py input - height node / 2))
                          (mkPoint (px output) (py output + height node / 2))
    end.

(** The entry of [curvedPath]: the default of two slots for an empty array,
    then the first and the last slot overwritten by the connectors. *)
Definition pinEndpoints (points : list Point) (srcOutput destInput : Point)
  : Slots Point :=
  let points := map Some points in
  let points :=
    if (List.length points =? 0)%nat then setLength 2 points else points in
  let points := store 0 srcOutput points in
  store (Z.of_nat (List.length points) - 1) destInput points.

(** ** paths.ts: SVG path strings *)

Local Open Scope string_scope.

(** The decimal digits of an integer, with a minus sign when negative. *)
Definition digits (n : Z) : string := NilZero.string_of_int (Z.to_int n).

Section PathStrings.

(** How a number that is not an integer (or is one of 10^21 and more) is
    printed.  The digits are those of the shortest decimal that reads back as
    the same double, which the exact model leaves open. *)
Variable fractionToString : R -> string.

(** A number inside a template literal. *)
Definition numberToString (n : R) : string :=
  let whole := Zfloor n in
  if Reqb n (IZR whole) && (Z.abs whole <? 10 ^ 21)%Z
  then digits whole
  else fractionToString n.

Definition moveTo (p : Point) : string :=
  "M " ++ numberToString (px p) ++ "," ++ numberToString (py p).

Definition cubicBezierTo (dest controlPoint1 controlPoint2 : Point) : string :=
  ("C " ++ numberToString (px controlPoint1) ++ ","
        ++ numberToString (py controlPoint1) ++ " ")
  ++ (numberToString (px controlPoint2) ++ ","
        ++ numberToString (py controlPoint2) ++ " ")
  ++ (numberToString (px dest) ++ "," ++ numberToString (py dest)).

(** The loop of [createPathFromPointData] from index [i] on, over the
    consecutive pairs [points[i]], [points[i + 1]]. *)
Fixpoint createPathFromPointData_loop (i : nat) (points : list PathPointData)
  : list string :=
  match points with
  | src :: ((dest :: _) as rest) =>
      let cp1 := outgoingControlPoint src in
      let cp2 := incomingControlPoint dest in
      ((if (i =? 0)%nat then [moveTo (point src)] else [])
         ++ [cubicBezierTo (point dest) cp1 cp2]
         ++ createPathFromPointData_loop (S i) rest)%list
  | _ => []
  end.

Definition createPathFromPointData (points : list PathPointData) : string :=
  let segments := createPathFromPointData_loop 0 points in
  String.concat " " segments.

(** [points] is an optional argument. *)
Definition pointsToLines (points : option (list Point)) : string :=
  match points with
  | None => ""
  | Some points =>
      if (List.length points <? 2)%nat then ""
      else
        let coords :=
          map (fun p => numberToString (px p) ++ "," ++ numberToString (py p))
              points in
        let joinedCoords := String.concat " " coords in
        "M " ++ joinedCoords
  end.

(** [curvedPath] writes the pinned points back into the edge; the edge
    after the call is returned next to the path.  [layout] is optional and
    defaults to left-to-right. *)
Definition curvedPath (edge : Edge) (layout : option LayoutOptions)
  : result (Edge * string) :=
  let layout :=
    match layout with
    | Some layout => layout
    | None => mkLayout (Some LEFT_TO_RIGHT)
    end in
  srcConnectors <- getConnectorPointsForNode (src edge) layout ;;
  destConnectors <- getConnectorPointsForNode (dest edge) layout ;;
  let points :=
    pinEndpoints (points edge) (output srcConnectors) (input destConnectors) in
  points <- dense points ;;
  data <- createPointData points layout ;;
  let path := createPathFromPointData data in
  Ok (mkEdge (src edge) (dest edge) points, path).

Definition trianglePoints (edge : Edge) (layout : LayoutOptions)
  : result string :=
  let triangleSideLength := 10 in
  let triangleHeightRatio := 0.86602540378 in
  if not_ (nx (dest edge)) || not_ (ny (dest edge))
  then Throw (RangeError "Edge point should not be a nullish value.")
  else
    match nx (dest edge), ny (dest edge) with
    | Some x, Some y =>
        let center := mkPoint x y in
        let connector := center in
        let trianglePoints :=
          match rankDirection layout with
          | Some LEFT_TO_RIGHT =>
              let connector :=
                mkPoint (px connector - width (dest edge) / 2) (py connector) in
              [ connector;
                mkPoint (px connector - triangleSideLength * triangleHeightRatio)
                        (py connector - triangleSideLength / 2);
                mkPoint (px connector - triangleSideLength * triangleHeightRatio)
                        (py connector + triangleSideLength / 2) ]
          | Some RIGHT_TO_LEFT =>
              let connector :=
                mkPoint (px connector + width (dest edge) / 2) (py connector) in
              [ connector;
                mkPoint (px connector + triangleSideLength * triangleHeightRatio)
                        (py connector - triangleSideLength / 2);
                mkPoint (px connector + triangleSideLength * triangleHeightRatio)
                        (py connector + triangleSideLength / 2) ]
          | Some TOP_TO_BOTTOM =>
              let connector :=
                mkPoint (px connector) (py connector - height (dest edge) / 2) in
              [ connector;
                mkPoint (px connector - triangleSideLength / 2)
                        (py connector - triangleSideLength * triangleHeightRatio);
                mkPoint (px connector + triangleSideLength / 2)
                        (py connector - triangleSideLength * triangleHeightRatio) ]
          | Some BOTTOM_TO_TOP | None =>
              let connector :=
                mkPoint (px connector) (py connector + height (dest edge) / 2) in
              [ connector;
                mkPoint (px connector - triangleSideLength / 2)
                        (py connector + triangleSideLength * triangleHeightRatio);
                mkPoint (px connector + triangleSideLength / 2)
                        (py connector + triangleSideLength * triangleHeightRatio) ]
          end in
        Ok (String.concat " "
              (map (fun point =>
                      numberToString (px point) ++ "," ++ numberToString (py point))
                   trianglePoints))
    (* not reached: an unset coordinate is falsy *)
    | _, _ => OutOfModel
    end.

End PathStrings.

Local Close Scope string_scope.

(** ** graph_camera.ts: constants *)

Definition FIT_PADDING_PERCENT : R := 0.04.
Definition DEBOUNCE_RESIZE_EVENTS_MS : R := 200.
Definition ZOOM_SENSITIVITY : R := 0.4.
Definition MAC_ZOOM_SENSITIVITY : R := 0.09.
Definition PAN_INTO_VIEW_PADDING : R := 60.

(** ** The document and the pan/zoom engine *)

Record ViewBox : Type := mkViewBox {
  vb_x : R;
  vb_y : R;
  vb_width : R;
  vb_height : R
}.

Record SizesProvided : Type := mkSizes {
  s_width : R;
  s_height : R;
  realZoom : R;
  viewBox : ViewBox
}.

(** What the camera reads from the svg element: whether it has a root
    [<g>], where it lies in the window, and how large it and its content
    are when measured. *)
Record SVGElement : Type := mkSVGElement {
  hasRootGroup : bool;
  boundingClientRect : Rect;
  measuredWidth : R;
  measuredHeight : R;
  measuredBBox : ViewBox
}.

(** The options the constructor hands to the engine.  [onPan] only forwards
    the point to the camera's event emitter and is left out. *)
Record SvgPanZoomOptions : Type := mkOptions {
  fit : bool;
  contain : bool;
  center : bool;
  zoomScaleSensitivity : R;
  mouseWheelZoomEnabled : option bool;
  panEnabled : bool;
  minZoom : R;
  maxZoom : R;
  preventMouseEventsDefault : bool;
  beforePan : Point -> Point -> Point
}.

Module SvgPanZoom.

(** Modelled from the spec: the pan/zoom transform engine, a third-party
    library the camera wraps and whose code is not part of the sources.
    It is the owned camera state of the specification: a pan offset, a
    zoom kept within [minZoom, maxZoom], the cached sizes of the viewport
    and of the content.  Every pan the engine applies, whoever asks for
    it, is first passed with the current pan to [beforePan], and the point
    the hook returns is the one applied. *)
Record Instance : Type := mkInstance {
  options : SvgPanZoomOptions;
  currentPan : Point;
  currentZoom : R;
  sizes : SizesProvided;
  destroyed : bool
}.

(** Modelled from the spec: the current pan offset. *)
Definition getPan (pz : Instance) : Point := currentPan pz.

(** Modelled from the spec: the current zoom. *)
Definition getZoom (pz : Instance) : R := currentZoom pz.

(** Modelled from the spec: the cached sizes. *)
Definition getSizes (pz : Instance) : SizesProvided := sizes pz.

(** Modelled from the spec: [pan(point)], instantaneous, through the
    [beforePan] hook. *)
Definition pan (pz : Instance) (point : Point) : Instance :=
  mkInstance (options pz)
             (beforePan (options pz) (currentPan pz) point)
             (currentZoom pz) (sizes pz) (destroyed pz).

(** Modelled from the spec: [zoom(level)], instantaneous, the level kept
    within [minZoom, maxZoom]. *)
Definition zoom (pz : Instance) (zoomLevel : R) : Instance :=
  mkInstance (options pz) (currentPan pz)
             (Rmax (minZoom (options pz)) (Rmin (maxZoom (options pz)) zoomLevel))
             (sizes pz) (destroyed pz).

(** Modelled from the spec: [updateBBox()] measures the content again. *)
Definition updateBBox (el : SVGElement) (pz : Instance) : Instance :=
  mkInstance (options pz) (currentPan pz) (currentZoom pz)
             (mkSizes (s_width (sizes pz)) (s_height (sizes pz))
                      (realZoom (sizes pz)) (measuredBBox el))
             (destroyed pz).

(** Modelled from the spec: [resize()] measures the viewport again. *)
Definition resize (el : SVGElement) (pz : Instance) : Instance :=
  mkInstance (options pz) (currentPan pz) (currentZoom pz)
             (mkSizes (measuredWidth el) (measuredHeight el)
                      (realZoom (sizes pz)) (viewBox (sizes pz)))
             (destroyed pz).

(** Modelled from the spec: [center()] pans the content to the middle of
    the viewport, by the offsets [smoothCenterAndFitWithoutZoomingIn]
    takes over from the engine. *)
Definition centerPan (pz : Instance) : Instance :=
  let s := sizes pz in
  let offsetX :=
    (s_width s - (vb_width (viewBox s) + vb_x (viewBox s) * 2) * currentZoom pz)
    * 0.5 in
  let offsetY :=
    (s_height s - (vb_height (viewBox s) + vb_y (viewBox s) * 2) * currentZoom pz)
    * 0.5 in
  pan pz (mkPoint offsetX offsetY).

(** Modelled from the spec: [fit()] zooms to the natural fit, the smaller
    of the two ratios of viewport to content. *)
Definition fitZoom (pz : Instance) : result Instance :=
  let s := sizes pz in
  ratioX <- divide (s_width s) (vb_width (viewBox s)) ;;
  ratioY <- divide (s_height s) (vb_height (viewBox s)) ;;
  Ok (zoom pz (Rmin ratioX ratioY)).

(** Modelled from the spec: [destroy()] releases the engine. *)
Definition destroy (pz : Instance) : Instance :=
  mkInstance (options pz) (currentPan pz) (currentZoom pz) (sizes pz) true.

(** Modelled from the spec: [svgPanZoom(svgEl, options)] starts at zoom 1
    with the sizes measured, centred when [center] is set. *)
Definition create (el : SVGElement) (opts : SvgPanZoomOptions) : Instance :=
  let pz :=
    mkInstance opts (mkPoint 0 0) 1
               (mkSizes (measuredWidth el) (measuredHeight el) 1 (measuredBBox el))
               false in
  if center opts then centerPan pz else pz.

End SvgPanZoom.

(** ** graph_camera.ts: animations *)

Definition easeInAndOut (t : R) : R :=
  3 * t * t - 2 * t * t * t.

(** The state shared by the [frameFn] and the [stopFn] closures of one call
    of [animateOver]: the start time, the arguments, and the handle of the
    frame that is requested and has not run yet. *)
Record Animation : Type := mkAnimation {
  start : R;
  durationMs : R;
  callback : R -> SvgPanZoom.Instance -> SvgPanZoom.Instance;
  handle : option nat
}.

(** A stop function field of the camera: [None] is the initial [() => {}],
    [Some a] the [stopFn] of the animation [a]. *)
Definition StopFn : Type := option Animation.

(** Calling a stop function: a requested frame is cancelled and the handle
    forgotten. *)
Definition callStopFn (stopFn : StopFn) : StopFn :=
  match stopFn with
  | Some a =>
      match handle a with
      | Some _ => Some (mkAnimation (start a) (durationMs a) (callback a) None)
      | None => Some a
      end
  | None => None
  end.

(** [animateOver] at the time [now]; [lastHandle] is the last handle handed
    out by [requestAnimationFrame], which counts upwards from 1. *)
Definition animateOver (durationMs : R)
  (callback : R -> SvgPanZoom.Instance -> SvgPanZoom.Instance)
  (now : R) (lastHandle : nat) : Animation * nat :=
  let start := now in
  let handle := S lastHandle in
  (mkAnimation start durationMs callback (Some handle), handle).

(** Whether a frame of the animation behind a stop function is requested. *)
Definition isActive (stopFn : StopFn) : bool :=
  match stopFn with
  | Some a => match handle a with Some _ => true | None => false end
  | None => false
  end.

(** ** graph_camera.ts: the GraphCamera class *)

Record CameraOptions : Type := mkCameraOptions {
  o_svgEl : SVGElement;
  o_windowRef : option unit;
  o_autoResetOnWindowResize : option bool;
  o_mouseWheelZoomEnabled : option bool
}.

(** The fields of the camera.  [resizeSub] is [Some true] while subscribed
    and [Some false] once unsubscribed; [onPanCompleted] records
    [onPan.complete()]; [lastHandle] is the counter of
    [requestAnimationFrame]. *)
Record GraphCamera : Type := mkGraphCamera {
  svgEl : SVGElement;
  panZoom : SvgPanZoom.Instance;
  resizeSub : option bool;
  stopSmoothPanFn : StopFn;
  stopSmoothZoomFn : StopFn;
  stopSmoothPanAndZoomFn : StopFn;
  onPanCompleted : bool;
  lastHandle : nat
}.

Definition set_panZoom (c : GraphCamera) (pz : SvgPanZoom.Instance) : GraphCamera :=
  mkGraphCamera (svgEl c) pz (resizeSub c) (stopSmoothPanFn c)
                (stopSmoothZoomFn c) (stopSmoothPanAndZoomFn c)
                (onPanCompleted c) (lastHandle c).

Definition set_resizeSub (c : GraphCamera) (sub : option bool) : GraphCamera :=
  mkGraphCamera (svgEl c) (panZoom c) sub (stopSmoothPanFn c)
                (stopSmoothZoomFn c) (stopSmoothPanAndZoomFn c)
                (onPanCompleted c) (lastHandle c).

Definition set_stopSmoothPanFn (c : GraphCamera) (f : StopFn) : GraphCamera :=
  mkGraphCamera (svgEl c) (panZoom c) (resizeSub c) f
                (stopSmoothZoomFn c) (stopSmoothPanAndZoomFn c)
                (onPanCompleted c) (lastHandle c).

Definition set_stopSmoothZoomFn (c : GraphCamera) (f : StopFn) : GraphCamera :=
  mkGraphCamera (svgEl c) (panZoom c) (resizeSub c) (stopSmoothPanFn c)
                f (stopSmoothPanAndZoomFn c)
                (onPanCompleted c) (lastHandle c).

Definition set_stopSmoothPanAndZoomFn (c : GraphCamera) (f : StopFn)
  : GraphCamera :=
  mkGraphCamera (svgEl c) (panZoom c) (resizeSub c) (stopSmoothPanFn c)
                (stopSmoothZoomFn c) f
                (onPanCompleted c) (lastHandle c).

Definition set_onPanCompleted (c : GraphCamera) (b : bool) : GraphCamera :=
  mkGraphCamera (svgEl c) (panZoom c) (resizeSub c) (stopSmoothPanFn c)
                (stopSmoothZoomFn c) (stopSmoothPanAndZoomFn c)
                b (lastHandle c).

Definition set_lastHandle (c : GraphCamera) (h : nat) : GraphCamera :=
  mkGraphCamera (svgEl c) (panZoom c) (resizeSub c) (stopSmoothPanFn c)
                (stopSmoothZoomFn c) (stopSmoothPanAndZoomFn c)
                (onPanCompleted c) h.

(** The [beforePan] hook of the constructor. *)
Definition beforePanHook (oldPoint point : Point) : Point :=
  mkPoint (Math_round (px point)) (Math_round (py point)).

Definition destroy (c : GraphCamera) : GraphCamera :=
  let c :=
    match resizeSub c with
    | Some _ => set_resizeSub c (Some false)
    | None => c
    end in
  let c := set_stopSmoothPanFn c (callStopFn (stopSmoothPanFn c)) in
  let c := set_stopSmoothZoomFn c (callStopFn (stopSmoothZoomFn c)) in
  let c := set_onPanCompleted c true in
  set_panZoom c (SvgPanZoom.destroy (panZoom c)).

Definition fitWithoutZoomingIn (c : GraphCamera) : result GraphCamera :=
  pz <- SvgPanZoom.fitZoom (panZoom c) ;;
  let c := set_panZoom c pz in
  if Rgtb (SvgPanZoom.getZoom (panZoom c)) 1
  then Ok (set_panZoom c (SvgPanZoom.zoom (panZoom c) 1))
  else
    let currentZoom := SvgPanZoom.getZoom (panZoom c) in
    let zoomAdjustedForPadding := currentZoom * (1 - FIT_PADDING_PERCENT) in
    Ok (set_panZoom c (SvgPanZoom.zoom (panZoom c) zoomAdjustedForPadding)).

Definition reset (c : GraphCamera) : result GraphCamera :=
  let c := set_stopSmoothPanFn c (callStopFn (stopSmoothPanFn c)) in
  let c := set_stopSmoothZoomFn c (callStopFn (stopSmoothZoomFn c)) in
  let c := set_panZoom c (SvgPanZoom.updateBBox (svgEl c) (panZoom c)) in
  let c := set_panZoom c (SvgPanZoom.resize (svgEl c) (panZoom c)) in
  let c := set_panZoom c (SvgPanZoom.centerPan (panZoom c)) in
  fitWithoutZoomingIn c.

Definition getPan (c : GraphCamera) : Point := SvgPanZoom.getPan (panZoom c).

Definition getZoom (c : GraphCamera) : R := SvgPanZoom.getZoom (panZoom c).

Definition pan (c : GraphCamera) (point : Point) : GraphCamera :=
  set_panZoom c (SvgPanZoom.pan (panZoom c) point).

Definition zoom (c : GraphCamera) (zoomLevel : R) : GraphCamera :=
  set_panZoom c (SvgPanZoom.zoom (panZoom c) zoomLevel).

(** An optional duration, 250 when left out. *)
Definition orDefault (v : option R) (d : R) : R :=
  match v with
  | Some n => n
  | None => d
  end.

Definition smoothPan (c : GraphCamera) (point : Point) (durationMs : option R)
  (now : R) : GraphCamera :=
  let durationMs := orDefault durationMs 250 in
  let c := set_stopSmoothPanFn c (callStopFn (stopSmoothPanFn c)) in
  let startX := px (SvgPanZoom.getPan (panZoom c)) in
  let startY := py (SvgPanZoom.getPan (panZoom c)) in
  let panByX := px point - startX in
  let panByY := py point - startY in
  let (a, h) :=
    animateOver durationMs
      (fun progress pz =>
         let targetX := startX + progress * panByX in
         let targetY := startY + progress * panByY in
         SvgPanZoom.pan pz (mkPoint targetX targetY))
      now (lastHandle c) in
  set_lastHandle (set_stopSmoothPanFn c (Some a)) h.

Definition smoothZoom (c : GraphCamera) (zoomLevel : R) (durationMs : option R)
  (now : R) : GraphCamera :=
  let durationMs := orDefault durationMs 250 in
  let c := set_stopSmoothZoomFn c (callStopFn (stopSmoothZoomFn c)) in
  let startZoom := SvgPanZoom.getZoom (panZoom c) in
  let zoomBy := zoomLevel - startZoom in
  let (a, h) :=
    animateOver durationMs
      (fun progress pz =>
         let targetZoom := startZoom + progress * zoomBy in
         SvgPanZoom.zoom pz targetZoom)
      now (lastHandle c) in
  set_lastHandle (set_stopSmoothZoomFn c (Some a)) h.

Definition smoothPanAndZoom (c : GraphCamera) (point : Point) (zoomLevel : R)
  (durationMs : option R) (now : R) : GraphCamera :=
  let durationMs := orDefault durationMs 250 in
  let c := set_stopSmoothPanAndZoomFn c (callStopFn (stopSmoothPanAndZoomFn c)) in
  let startX := px (SvgPanZoom.getPan (panZoom c)) in
  let startY := py (SvgPanZoom.getPan (panZoom c)) in
  let panByX := px point - startX in
  let panByY := py point - startY in
  let startZoom := SvgPanZoom.getZoom (panZoom c) in
  let zoomBy := zoomLevel - startZoom in
  let (a, h) :=
    animateOver durationMs
      (fun progress pz =>
         let targetX := startX + progress * panByX in
         let targetY := startY + progress * panByY in
         let pz := SvgPanZoom.pan pz (mkPoint targetX targetY) in
         let targetZoom := startZoom + progress * zoomBy in
         SvgPanZoom.zoom pz targetZoom)
      now (lastHandle c) in
  set_lastHandle (set_stopSmoothPanAndZoomFn c (Some a)) h.

Definition zoomIn (c : GraphCamera) (now : R) : GraphCamera :=
  let existing := SvgPanZoom.getZoom (panZoom c) in
  let scale := 1 + ZOOM_SENSITIVITY in
  let target := existing * scale in
  smoothZoom c target None now.

Definition zoomOut (c : GraphCamera) (now : R) : GraphCamera :=
  let existing := SvgPanZoom.getZoom (panZoom c) in
  let scale := 1 / (1 + ZOOM_SENSITIVITY) in
  let target := existing * scale in
  smoothZoom c target None now.

Definition smoothCenterAndFitWithoutZoomingIn (c : GraphCamera) (durationMs : R)
  (now : R) : result GraphCamera :=
  let sizes := SvgPanZoom.getSizes (panZoom c) in
  ratioX <- divide (s_width sizes) (vb_width (viewBox sizes)) ;;
  ratioY <- divide (s_height sizes) (vb_height (viewBox sizes)) ;;
  let newZoom := Rmin ratioX ratioY in
  let newZoom :=
    if Rgtb newZoom 1 then 1 else newZoom * (1 - FIT_PADDING_PERCENT) in
  let offsetX :=
    (s_width sizes
     - (vb_width (viewBox sizes) + vb_x (viewBox sizes) * 2) * newZoom) * 0.5 in
  let offsetY :=
    (s_height sizes
     - (vb_height (viewBox sizes) + vb_y (viewBox sizes) * 2) * newZoom) * 0.5 in
  let newPan := mkPoint offsetX offsetY in
  Ok (smoothPanAndZoom c newPan newZoom (Some durationMs) now).

Definition smoothReset (c : GraphCamera) (durationMs : R) (now : R)
  : result GraphCamera :=
  let c := set_stopSmoothPanFn c (callStopFn (stopSmoothPanFn c)) in
  let c := set_stopSmoothZoomFn c (callStopFn (stopSmoothZoomFn c)) in
  let c := set_panZoom c (SvgPanZoom.updateBBox (svgEl c) (panZoom c)) in
  let c := set_panZoom c (SvgPanZoom.resize (svgEl c) (panZoom c)) in
  smoothCenterAndFitWithoutZoomingIn c durationMs now.

Definition domToCameraSpace (c : GraphCamera) (point : Point) : Point :=
  let svgBounds := boundingClientRect (svgEl c) in
  mkPoint (px point - left svgBounds) (py point - top svgBounds).

Definition cameraToWorldSpace (c : GraphCamera) (point : Point) : result Point :=
  let zoom := SvgPanZoom.getZoom (panZoom c) in
  let pan := SvgPanZoom.getPan (panZoom c) in
  x <- divide (px point - px pan) zoom ;;
  y <- divide (py point - py pan) zoom ;;
  Ok (mkPoint x y).

Definition domToWorldSpace (c : GraphCamera) (point : Point) : result Point :=
  let cameraPoint := domToCameraSpace c point in
  cameraToWorldSpace c cameraPoint.

Definition getVisibleRegionInWorldSpace (c : GraphCamera) : result Rect :=
  let sizes := SvgPanZoom.getSizes (panZoom c) in
  topLeft <- cameraToWorldSpace c (mkPoint 0 0) ;;
  bottomRight <- cameraToWorldSpace c (mkPoint (s_width sizes) (s_height sizes)) ;;
  Ok (mkRect (py topLeft) (px topLeft) (py bottomRight) (px bottomRight)).

Definition nodeToRect (node : Node) : result Rect :=
  x <- nonNull (nx node) ;;
  y <- nonNull (ny node) ;;
  let left := x - width node / 2 in
  let right := x + width node / 2 in
  let top := y - height node / 2 in
  let bottom := y + height node / 2 in
  Ok (mkRect top left bottom right).

Definition expandRectBy (region : Rect) (amount : R) : Rect :=
  mkRect (top region - amount) (left region - amount)
         (bottom region + amount) (right region + amount).

Definition panIntoView (c : GraphCamera) (region : Rect) (padding : option R)
  (now : R) : result GraphCamera :=
  let padding := orDefault padding PAN_INTO_VIEW_PADDING in
  let c := set_panZoom c (SvgPanZoom.updateBBox (svgEl c) (panZoom c)) in
  let c := set_panZoom c (SvgPanZoom.resize (svgEl c) (panZoom c)) in
  visibleRegion <- getVisibleRegionInWorldSpace c ;;
  let region := expandRectBy region padding in
  let xToPan := 0 in
  let yToPan := 0 in
  let yToPan :=
    if Rltb (top region) (top visibleRegion)
    then top visibleRegion - top region else yToPan in
  let yToPan :=
    if Rgtb (bottom region) (bottom visibleRegion)
    then bottom visibleRegion - bottom region else yToPan in
  let xToPan :=
    if Rltb (left region) (left visibleRegion)
    then left visibleRegion - left region else xToPan in
  let xToPan :=
    if Rgtb (right region) (right visibleRegion)
    then right visibleRegion - right region else xToPan in
  if Reqb xToPan 0 && Reqb yToPan 0 then Ok c
  else
    let zoom := SvgPanZoom.getZoom (panZoom c) in
    let amountToPanByInCameraSpace := mkPoint (xToPan * zoom) (yToPan * zoom) in
    let currentPan := SvgPanZoom.getPan (panZoom c) in
    let targetPan :=
      mkPoint (px currentPan + px amountToPanByInCameraSpace)
              (py currentPan + py amountToPanByInCameraSpace) in
    Ok (smoothPan c targetPan None now).

Definition panNodeIntoView (c : GraphCamera) (node : Node) (padding : option R)
  (now : R) : result GraphCamera :=
  region <- nodeToRect node ;;
  panIntoView c region padding now.

(** [userAgent.includes(part)] *)
Definition includes (s part : string) : bool :=
  match String.index 0 part s with
  | Some _ => true
  | None => false
  end.

(** The constructor, in a browser whose user agent string is [userAgent]. *)
Definition newGraphCamera (options : CameraOptions) (userAgent : string)
  : result GraphCamera :=
  let svgEl := o_svgEl options in
  if negb (hasRootGroup svgEl)
  then Throw (ReferenceError "A root <g> element is needed for the camera to work.")
  else
    let isMac := includes userAgent "Macintosh" in
    let panZoom :=
      SvgPanZoom.create svgEl
        (mkOptions false false true
                   (if isMac then MAC_ZOOM_SENSITIVITY else ZOOM_SENSITIVITY)
                   (o_mouseWheelZoomEnabled options)
                   true 0.1 2 false beforePanHook) in
    let c := mkGraphCamera svgEl panZoom None None None None false 0 in
    c <- reset c ;;
    match o_autoResetOnWindowResize options with
    | Some true =>
        match o_windowRef options with
        | None => Throw (ReferenceError "windowRef is required for autoresize")
        | Some _ => Ok (set_resizeSub c (Some true))
        end
    | _ => Ok c
    end.

(** ** What the browser does to a camera *)

Inductive Channel : Type := PanChannel | ZoomChannel | PanAndZoomChannel.

Definition stopFnOf (ch : Channel) (c : GraphCamera) : StopFn :=
  match ch with
  | PanChannel => stopSmoothPanFn c
  | ZoomChannel => stopSmoothZoomFn c
  | PanAndZoomChannel => stopSmoothPanAndZoomFn c
  end.

Definition set_stopFnOf (ch : Channel) (c : GraphCamera) (f : StopFn)
  : GraphCamera :=
  match ch with
  | PanChannel => set_stopSmoothPanFn c f
  | ZoomChannel => set_stopSmoothZoomFn c f
  | PanAndZoomChannel => set_stopSmoothPanAndZoomFn c f
  end.

(** The [frameFn] of [animateOver], run by the browser at the time [now]
    for the animation behind the stop function of [ch].  Nothing runs
    when no frame of that animation is requested. *)
Definition frameFn (ch : Channel) (now : R) (c : GraphCamera)
  : result GraphCamera :=
  match stopFnOf ch c with
  | Some a =>
      match handle a with
      | Some _ =>
          let progressMs := now - start a in
          ratio <- divide progressMs (durationMs a) ;;
          let progress := Rmin ratio 1 in
          let progress := easeInAndOut progress in
          let c := set_panZoom c (callback a progress (panZoom c)) in
          if Rltb progressMs (durationMs a)
          then
            let h := S (lastHandle c) in
            Ok (set_lastHandle
                  (set_stopFnOf ch c
                     (Some (mkAnimation (start a) (durationMs a) (callback a)
                                        (Some h))))
                  h)
          else
            Ok (set_stopFnOf ch c
                  (Some (mkAnimation (start a) (durationMs a) (callback a) None)))
      | None => Ok c
      end
  | None => Ok c
  end.

(** The subscriber of the debounced resize events. *)
Definition onWindowResize (c : GraphCamera) : result GraphCamera :=
  match resizeSub c with
  | Some true => reset c
  | _ => Ok c
  end.

(** Modelled from the spec: the user drags the canvas; the engine, with
    [panEnabled] set, pans to the point the drag asks for. *)
Definition userDrag (c : GraphCamera) (point : Point) : GraphCamera :=
  if panEnabled (SvgPanZoom.options (panZoom c))
  then set_panZoom c (SvgPanZoom.pan (panZoom c) point)
  else c.

(** The document changes under the camera: the element is measured anew
    by the next [updateBBox] and [resize]. *)
Definition documentChanged (c : GraphCamera) (el : SVGElement) : GraphCamera :=
  mkGraphCamera el (panZoom c) (resizeSub c) (stopSmoothPanFn c)
                (stopSmoothZoomFn c) (stopSmoothPanAndZoomFn c)
                (onPanCompleted c) (lastHandle c).

(** Everything that can happen to a camera once it is constructed. *)
Inductive Call : Type :=
| CallDestroy
| CallReset
| CallSmoothReset (durationMs now : R)
| CallZoomIn (now : R)
| CallZoomOut (now : R)
| CallPan (point : Point)
| CallZoom (zoomLevel : R)
| CallSmoothPan (point : Point) (durationMs : option R) (now : R)
| CallSmoothZoom (zoomLevel : R) (durationMs : option R) (now : R)
| CallSmoothPanAndZoom (point : Point) (zoomLevel : R) (durationMs : option R)
                       (now : R)
| CallPanNodeIntoView (node : Node) (padding : option R) (now : R)
| CallPanIntoView (region : Rect) (padding : option R) (now : R)
| Frame (ch : Channel) (now : R)
| WindowResize
| UserDrag (point : Point)
| DocumentChanged (el : SVGElement).

Definition step (c : GraphCamera) (call : Call) : result GraphCamera :=
  match call with
  | CallDestroy => Ok (destroy c)
  | CallReset => reset c
  | CallSmoothReset durationMs now => smoothReset c durationMs now
  | CallZoomIn now => Ok (zoomIn c now)
  | CallZoomOut now => Ok (zoomOut c now)
  | CallPan point => Ok (pan c point)
  | CallZoom zoomLevel => Ok (zoom c zoomLevel)
  | CallSmoothPan point durationMs now => Ok (smoothPan c point durationMs now)
  | CallSmoothZoom zoomLevel durationMs now =>
      Ok (smoothZoom c zoomLevel durationMs now)
  | CallSmoothPanAndZoom point zoomLevel durationMs now =>
      Ok (smoothPanAndZoom c point zoomLevel durationMs now)
  | CallPanNodeIntoView node padding now => panNodeIntoView c node padding now
  | CallPanIntoView region padding now => panIntoView c region padding now
  | Frame ch now => frameFn ch now c
  | WindowResize => onWindowResize c
  | UserDrag point => Ok (userDrag c point)
  | DocumentChanged el => Ok (documentChanged c el)
  end.

Fixpoint run (c : GraphCamera) (calls : list Call) : result GraphCamera :=
  match calls with
  | [] => Ok c
  | call :: calls' =>
      c' <- step c call ;;
      run c' calls'
  end.

(** ** graph_component.ts: the ids of nodes and edges *)

(** A value of the type [Node|Edge]. *)
Inductive Element : Type :=
| NodeElement (node : Node)
| EdgeElement (edge : Edge).

(** [!!s] for a string: only the empty string is falsy. *)
Definition truthy (s : string) : bool := negb (String.eqb s "").

(** [!!cast.id]: an edge has no [id]. *)
Definition isNode (el : Element) : bool :=
  match el with
  | NodeElement cast => truthy (id cast)
  | EdgeElement _ => false
  end.

(** [!!cast.src && !!cast.dest]: a node has neither. *)
Definition isEdge (el : Element) : bool :=
  match el with
  | NodeElement _ => false
  | EdgeElement _ => true
  end.

(** A node that [isNode] does not recognise is taken for an edge, and
    reading [el.src.id] is a TypeError. *)
Definition getId (el : Element) : result string :=
  if isNode el
  then
    match el with
    | NodeElement node => Ok ("n-" ++ id node)%string
    | EdgeElement _ => Throw TypeError
    end
  else
    match el with
    | EdgeElement edge =>
        Ok ("e-" ++ id (src edge) ++ "-" ++ id (dest edge))%string
    | NodeElement _ => Throw TypeError
    end.

(** ** graph_component.ts: new node ids *)

(** A [Set<string>]: its elements in insertion order, each once. *)
Definition StringSet : Type := list string.

Definition has (s : StringSet) (v : string) : bool :=
  existsb (String.eqb v) s.

Definition add (s : StringSet) (v : string) : StringSet :=
  if has s v then s else s ++ [v].

(** The two fields of the component that the id methods use. *)
Record NodeIdState : Type := mkNodeIdState {
  nodeIds : StringSet;
  maxNodeId : Z
}.

(** The [while] loop of [getNewNodeId], at most [fuel] tests long. *)
Fixpoint getNewNodeId_loop (fuel : nat) (nodeIds : StringSet) (maxNodeId : Z)
  : option Z :=
  match fuel with
  | O => None
  | S fuel' =>
      if has nodeIds ("n" ++ digits maxNodeId)%string
      then getNewNodeId_loop fuel' nodeIds (maxNodeId + 1)
      else Some maxNodeId
  end.

Definition getNewNodeId (fuel : nat) (st : NodeIdState)
  : option (string * NodeIdState) :=
  match getNewNodeId_loop fuel (nodeIds st) (maxNodeId st) with
  | Some maxNodeId =>
      let newId := ("n" ++ digits maxNodeId)%string in
      Some (newId, mkNodeIdState (add (nodeIds st) newId) maxNodeId)
  | None => None
  end.

(** [updateNodeIds] over the nodes of the graph. *)
Definition updateNodeIds (nodes : list Node) : NodeIdState :=
  mkNodeIdState (fold_left (fun s node => add s (id node)) nodes []) 0.

(** * Properties *)

(** A triple of points on one straight line: the cross product of
    [lineStart -> point] and [lineStart -> lineEnd] is zero. *)
Definition collinear (lineStart lineEnd point : Point) : Prop :=
  (px point - px lineStart) * (py lineEnd - py lineStart)
  = (py point - py lineStart) * (px lineEnd - px lineStart).

(** A number without a fractional part. *)
Definition isInteger (r : R) : Prop := exists z : Z, r = IZR z.

(** A node the layout has placed. *)
Definition placedAt (node : Node) (x y : R) : Prop :=
  nx node = Some x /\ ny node = Some y.

(** The engine as the constructor configures it: the zoom limits, the
    rounding hook, panning enabled. *)
Definition configured (pz : SvgPanZoom.Instance) : Prop :=
  minZoom (SvgPanZoom.options pz) = 0.1
  /\ maxZoom (SvgPanZoom.options pz) = 2
  /\ beforePan (SvgPanZoom.options pz) = beforePanHook
  /\ panEnabled (SvgPanZoom.options pz) = true.

Definition wholePixels (pz : SvgPanZoom.Instance) : Prop :=
  isInteger (px (SvgPanZoom.currentPan pz))
  /\ isInteger (py (SvgPanZoom.currentPan pz)).

Definition goodEngine (pz : SvgPanZoom.Instance) : Prop :=
  configured pz /\ wholePixels pz.

Definition goodStopFn (stopFn : StopFn) : Prop :=
  match stopFn with
  | Some a => forall progress pz, goodEngine pz -> goodEngine (callback a progress pz)
  | None => True
  end.

Definition goodCamera (c : GraphCamera) : Prop :=
  goodEngine (panZoom c)
  /\ goodStopFn (stopSmoothPanFn c)
  /\ goodStopFn (stopSmoothZoomFn c)
  /\ goodStopFn (stopSmoothPanAndZoomFn c).

(** ** Comparisons *)

Lemma Rltb_true_iff (a b : R) : Rltb a b = true <-> a < b.
Proof. unfold Rltb. destruct (Rlt_dec a b); split; intros; congruence || tauto. Qed.

Lemma Rltb_false_iff (a b : R) : Rltb a b = false <-> ~ a < b.
Proof. unfold Rltb. destruct (Rlt_dec a b); split; intros; congruence || tauto. Qed.

Lemma Rleb_true_iff (a b : R) : Rleb a b = true <-> a <= b.
Proof. unfold Rleb. destruct (Rle_dec a b); split; intros; congruence || tauto. Qed.

Lemma Rleb_false_iff (a b : R) : Rleb a b = false <-> ~ a <= b.
Proof. unfold Rleb. destruct (Rle_dec a b); split; intros; congruence || tauto. Qed.

Lemma Reqb_true_iff (a b : R) : Reqb a b = true <-> a = b.
Proof. unfold Reqb. destruct (Req_dec_T a b); split; intros; congruence || tauto. Qed.

Lemma Reqb_false_iff (a b : R) : Reqb a b = false <-> a <> b.
Proof. unfold Reqb. destruct (Req_dec_T a b); split; intros; congruence || tauto. Qed.

Lemma Rgtb_true_iff (a b : R) : Rgtb a b = true <-> a > b.
Proof. unfold Rgtb. rewrite Rltb_true_iff. reflexivity. Qed.

Lemma Rgtb_false_iff (a b : R) : Rgtb a b = false <-> ~ a > b.
Proof. unfold Rgtb. rewrite Rltb_false_iff. reflexivity. Qed.

Lemma divide_Ok (a b : R) : b <> 0 -> divide a b = Ok (a / b).
Proof. intros H. unfold divide. apply Reqb_false_iff in H. now rewrite H. Qed.


Lemma Math_round_isInteger (r : R) : isInteger (Math_round r).
Proof. now exists (Zfloor (r + / 2)). Qed.

Lemma Math_round_nearest (r : R) : r - / 2 < Math_round r <= r + / 2.
Proof.
  unfold Math_round. pose proof (Zfloor_bound (r + / 2)). lra.
Qed.

(** Evaluating comparisons and roundings of concrete numbers. *)
Ltac rdecide :=
  repeat first
    [ rewrite (proj2 (Reqb_true_iff _ _)) by lra
    | rewrite (proj2 (Reqb_false_iff _ _)) by lra
    | rewrite (proj2 (Rltb_true_iff _ _)) by lra
    | rewrite (proj2 (Rltb_false_iff _ _)) by lra
    | rewrite (proj2 (Rleb_true_iff _ _)) by lra
    | rewrite (proj2 (Rleb_false_iff _ _)) by lra
    | rewrite (proj2 (Rgtb_true_iff _ _)) by lra
    | rewrite (proj2 (Rgtb_false_iff _ _)) by lra
    | rewrite Rmin_left by lra
    | rewrite Rmin_right by lra
    | rewrite Rmax_left by lra
    | rewrite Rmax_right by lra ].

(** Case analysis on every [Rmin] and [Rmax], innermost first. *)
Ltac minmax :=
  unfold Rmax, Rmin in *;
  repeat match goal with
         | |- context [Rle_dec ?a ?b] =>
             lazymatch a with
             | context [Rle_dec] => fail
             | _ => lazymatch b with
                    | context [Rle_dec] => fail
                    | _ => destruct (Rle_dec a b)
                    end
             end
         end;
  try lra.

(** ** The Vector class *)

(** C8.  The zero vector has length 0 and is normalized to the zero vector;
    on every vector [normalize] runs to its end without dividing by zero:
    with the division checked it returns, and returns the same vector. *)
Theorem normalize_total_zero_vector_fixed :
  Vector.length (Vector.mk 0 0) = 0
  /\ Vector.normalize (Vector.mk 0 0) = Vector.mk 0 0
  /\ forall v : Vector.t, Vector.normalize_checked v = Ok (Vector.normalize v).
Proof.
  assert (Hlen : Vector.length (Vector.mk 0 0) = 0).
  { unfold Vector.length. simpl. replace (0 * 0 + 0 * 0) with 0 by ring.
    apply sqrt_0. }
  split; [exact Hlen|]. split.
  - unfold Vector.normalize. rewrite Hlen.
    rewrite (proj2 (Reqb_true_iff 0 0)) by reflexivity.
    unfold Vector.multiplyScalar. simpl. f_equal; ring.
  - intros v. unfold Vector.normalize_checked, Vector.normalize.
    destruct (Reqb (Vector.length v) 0) eqn:E.
    + reflexivity.
    + apply Reqb_false_iff in E. rewrite (divide_Ok _ _ E). reflexivity.
Qed.

(** ** Printing *)

Lemma numberToString_IZR (fractionToString : R -> string) (z : Z) :
  (Z.abs z < 10 ^ 21)%Z ->
  numberToString fractionToString (IZR z) = digits z.
Proof.
  intros H. unfold numberToString. rewrite ZfloorZ.
  rewrite (proj2 (Reqb_true_iff _ _)) by reflexivity.
  apply Z.ltb_lt in H. rewrite H. reflexivity.
Qed.

(** C9.  [pointsToLines] is the empty string without points, for the empty
    list and for a single point; for two points and more it is a move-to
    command followed by every point in order, one space between them. *)
Theorem pointsToLines_joins_two_or_more (fractionToString : R -> string) :
  let coord p :=
    (numberToString fractionToString (px p) ++ ","
       ++ numberToString fractionToString (py p))%string in
  pointsToLines fractionToString None = ""%string
  /\ (forall points : list Point,
        pointsToLines fractionToString (Some points)
        = match points with
          | [] => ""
          | [_] => ""
          | p :: rest =>
              "M " ++ coord p
                   ++ String.concat "" (map (fun q => " " ++ coord q) rest)
          end%string)
  /\ pointsToLines fractionToString (Some []) = ""%string
  /\ (forall p, pointsToLines fractionToString (Some [p]) = ""%string)
  /\ pointsToLines fractionToString (Some [mkPoint 0 0; mkPoint 1 1])
     = "M 0,0 1,1"%string.
Proof.
  intros coord.
  assert (Happ : forall s : string, (s ++ "")%string = s).
  { induction s as [|ch s IH]; simpl; [reflexivity | now rewrite IH]. }
  assert (Hassoc : forall s t u : string,
             ((s ++ t) ++ u)%string = (s ++ t ++ u)%string).
  { induction s as [|ch s IH]; intros t u; simpl;
      [reflexivity | now rewrite IH]. }
  assert (Hjoin : forall (l : list Point) (p : Point),
             String.concat " " (map coord (p :: l))
             = (coord p ++ String.concat "" (map (fun q => " " ++ coord q) l))%string).
  { induction l as [|q l IH]; intros p.
    - simpl. now rewrite Happ.
    - change (map coord (p :: q :: l)) with (coord p :: map coord (q :: l)).
      cbn [String.concat]. rewrite IH. cbn [map].
      destruct l as [|r l].
      + simpl. now rewrite !Happ.
      + cbn [map String.concat]. now rewrite Hassoc. }
  split; [reflexivity|]. split; [|split; [reflexivity|split; [reflexivity|]]].
  - intros [|p [|q rest]]; try reflexivity.
    unfold pointsToLines. cbn [List.length Nat.ltb Nat.leb].
    fold coord. rewrite Hjoin. reflexivity.
  - unfold pointsToLines. cbn [List.length Nat.ltb Nat.leb map px py].
    rewrite (numberToString_IZR _ 0), (numberToString_IZR _ 1) by (cbn; lia).
    reflexivity.
Qed.

(** ** Arrays and loops *)

Lemma item_of_nat {A : Type} (a : list A) (i : nat) :
  item a (Z.of_nat i) = nth_error a i.
Proof.
  unfold item. destruct (Z.ltb_spec (Z.of_nat i) 0); [lia|].
  now rewrite Nat2Z.id.
Qed.

Lemma item_negative {A : Type} (a : list A) (i : Z) :
  (i < 0)%Z -> item a i = None.
Proof. intros H. unfold item. apply Z.ltb_lt in H. now rewrite H. Qed.



Lemma nth_error_indices {A : Type} (a : list A) (i : nat) :
  (i < List.length a)%nat -> nth_error (indices a) i = Some (Z.of_nat i).
Proof.
  intros H. unfold indices.
  rewrite nth_error_map, nth_error_seq.
  destruct (Nat.ltb_spec i (List.length a)); [reflexivity | lia].
Qed.

Lemma length_indices {A : Type} (a : list A) :
  List.length (indices a) = List.length a.
Proof. unfold indices. now rewrite length_map, length_seq. Qed.

Lemma mapM_Ok_length {A B : Type} (f : A -> result B) (l : list A)
  (data : list B) :
  mapM f l = Ok data -> List.length data = List.length l.
Proof.
  revert data. induction l as [|a l IH]; intros data H; simpl in H.
  - now inversion H.
  - destruct (f a); try discriminate. simpl in H.
    destruct (mapM f l) as [bs| |]; try discriminate. simpl in H.
    inversion H. simpl. f_equal. now apply IH.
Qed.

Lemma mapM_Ok_nth {A B : Type} (f : A -> result B) (l : list A)
  (data : list B) (i : nat) (a : A) :
  mapM f l = Ok data -> nth_error l i = Some a ->
  exists b, nth_error data i = Some b /\ f a = Ok b.
Proof.
  revert data i. induction l as [|a0 l IH]; intros data i H Hi.
  - destruct i; discriminate.
  - simpl in H. destruct (f a0) as [b0| |] eqn:E0; try discriminate.
    simpl in H. destruct (mapM f l) as [bs| |]; try discriminate.
    simpl in H. inversion H; subst data.
    destruct i as [|i]; simpl in Hi |- *.
    + inversion Hi; subst. now exists b0.
    + now apply IH.
Qed.

Lemma mapM_total {A B : Type} (f : A -> result B) (l : list A) :
  (forall a, In a l -> exists b, f a = Ok b) ->
  exists data, mapM f l = Ok data.
Proof.
  induction l as [|a l IH]; intros H.
  - now exists [].
  - destruct (H a (or_introl eq_refl)) as [b Hb].
    destruct IH as [bs Hbs]; [intros; apply H; now right|].
    exists (b :: bs). simpl. rewrite Hb. simpl. rewrite Hbs. reflexivity.
Qed.

Lemma In_indices {A : Type} (a : list A) (i : Z) :
  In i (indices a) -> exists n, i = Z.of_nat n /\ (n < List.length a)%nat.
Proof.
  unfold indices. rewrite in_map_iff. intros [n [<- Hn]].
  apply in_seq in Hn. exists n. split; [reflexivity | lia].
Qed.

(** ** Control points *)

Lemma getSmoothedControlPoints_Ok (points : list Point) (i : nat) (p : Point) :
  nth_error points i = Some p ->
  exists d, getSmoothedControlPoints points (Z.of_nat i) = Ok d /\ point d = p.
Proof.
  intros H. unfold getSmoothedControlPoints. rewrite item_of_nat, H. simpl.
  eexists. split; reflexivity.
Qed.

(** [createPointData] returns one entry for each point, in order, and the
    entry of a point carries that point. *)
Lemma createPointData_Ok (points : list Point) (layout : LayoutOptions) :
  exists data,
    createPointData points layout = Ok data
    /\ List.length data = List.length points
    /\ forall i p, nth_error points i = Some p ->
         exists d, nth_error data i = Some d /\ point d = p.
Proof.
  unfold createPointData.
  set (f := fun i : Z => _).
  assert (Hf : forall i p, nth_error points i = Some p ->
                 exists d, f (Z.of_nat i) = Ok d /\ point d = p).
  { intros i p Hp. subst f. cbv beta.
    destruct (getSmoothedControlPoints_Ok points i p Hp) as [d [Hd Hpt]].
    destruct (doesPathGoBackwards points layout); [now exists d|].
    destruct (isPointUnimportant points (Z.of_nat i)); [now exists d|].
    rewrite item_of_nat, Hp. simpl. eexists. split; reflexivity. }
  destruct (mapM_total f (indices points)) as [data Hdata].
  { intros i Hi. apply In_indices in Hi. destruct Hi as [n [-> Hn]].
    destruct (nth_error points n) as [p|] eqn:Hp.
    - destruct (Hf n p Hp) as [d [Hd _]]. now exists d.
    - apply nth_error_None in Hp. lia. }
  exists data. split; [exact Hdata|]. split.
  - rewrite (mapM_Ok_length _ _ _ Hdata). apply length_indices.
  - intros i p Hp.
    assert (Hi : (i < List.length points)%nat).
    { apply nth_error_Some. congruence. }
    destruct (mapM_Ok_nth _ _ _ i (Z.of_nat i) Hdata (nth_error_indices _ _ Hi))
      as [d [Hd Hfd]].
    exists d. split; [exact Hd|].
    destruct (Hf i p Hp) as [d' [Hd' Hpt]]. congruence.
Qed.

(** The entry of [createPointData] at an index is what the loop body
    computes there. *)
Lemma createPointData_nth (points : list Point) (layout : LayoutOptions)
  (data : list PathPointData) (i : nat) :
  createPointData points layout = Ok data ->
  (i < List.length points)%nat ->
  exists d,
    nth_error data i = Some d
    /\ (if doesPathGoBackwards points layout
        then getSmoothedControlPoints points (Z.of_nat i)
        else if isPointUnimportant points (Z.of_nat i)
             then getSmoothedControlPoints points (Z.of_nat i)
             else point <- defined (item points (Z.of_nat i)) ;;
                  Ok (getLayoutCurvedControlPoints point layout)) = Ok d.
Proof.
  intros Hdata Hi. unfold createPointData in Hdata.
  destruct (mapM_Ok_nth _ _ _ i (Z.of_nat i) Hdata (nth_error_indices _ _ Hi))
    as [d [Hd Hfd]].
  exists d. split; [exact Hd | exact Hfd].
Qed.


Lemma isLineGoingBackwards_iff (p1 p2 : Point) (dir : Vector.t) :
  isLineGoingBackwards p1 p2 dir = true
  <-> (px p2 - px p1) * Vector.x dir < 0 \/ (py p2 - py p1) * Vector.y dir < 0.
Proof.
  unfold isLineGoingBackwards, createVectorBetweenPoints. cbn [Vector.x Vector.y].
  rewrite orb_true_iff, !Rltb_true_iff. reflexivity.
Qed.



Lemma getDistanceFromLine_collinear (lineStart lineEnd p : Point) :
  collinear lineStart lineEnd p -> getDistanceFromLine lineStart lineEnd p = 0.
Proof.
  unfold collinear. intros H.
  unfold getDistanceFromLine, Vector.normalize, Vector.multiplyScalar,
    Vector.dot, createPerpendicularVector, createVectorBetweenPoints.
  cbn [Vector.x Vector.y].
  set (m := if Reqb _ 0 then 0 else _).
  replace ((px p - px lineStart) * - ((py lineEnd - py lineStart) * m)
           + (py p - py lineStart) * ((px lineEnd - px lineStart) * m))
    with (m * ((py p - py lineStart) * (px lineEnd - px lineStart)
               - (px p - px lineStart) * (py lineEnd - py lineStart)))
    by ring.
  rewrite H. replace (m * _) with 0 by ring. apply Rabs_R0.
Qed.




(** ** Connector pinning *)

Lemma dense_map_Some {A : Type} (l : list A) : dense (map Some l) = Ok l.
Proof.
  unfold dense. induction l as [|a l IH]; simpl; [reflexivity|].
  now rewrite IH.
Qed.

Lemma store_map_Some {A : Type} (l : list A) (n : nat) (v : A) :
  (n < List.length l)%nat ->
  store (Z.of_nat n) v (map Some l)
  = map Some (firstn n l ++ v :: skipn (S n) l).
Proof.
  intros H. unfold store.
  destruct (Z.ltb_spec (Z.of_nat n) 0); [lia|].
  rewrite Nat2Z.id, length_map.
  destruct (Nat.ltb_spec n (List.length l)); [|lia].
  rewrite map_app. cbn [map]. now rewrite firstn_map, skipn_map.
Qed.

(** After the entry of [curvedPath] the array has no hole; it has two
    slots when it was empty and as many as before otherwise. *)
Lemma pinEndpoints_elements (points : list Point) (srcOutput destInput : Point) :
  exists pinned,
    pinEndpoints points srcOutput destInput = map Some pinned
    /\ List.length pinned
       = if (List.length points =? 0)%nat then 2%nat else List.length points.
Proof.
  unfold pinEndpoints. destruct points as [|a rest].
  - exists [srcOutput; destInput]. split; reflexivity.
  - rewrite length_map. cbn [List.length Nat.eqb].
    pose proof (store_map_Some (a :: rest) 0 srcOutput) as H0.
    change (Z.of_nat 0) with 0%Z in H0. rewrite H0 by (simpl; lia). clear H0.
    cbn [firstn skipn app]. rewrite length_map. cbn [List.length].
    replace (Z.of_nat (S (List.length rest)) - 1)%Z
      with (Z.of_nat (List.length rest)) by lia.
    rewrite store_map_Some by (simpl; lia).
    eexists. split; [reflexivity|].
    rewrite length_app, length_firstn. cbn [List.length].
    rewrite length_skipn. cbn [List.length]. lia.
Qed.

Lemma getConnectorPointsForNode_Ok (node : Node) (layout : LayoutOptions)
  (x y : R) :
  placedAt node x y ->
  exists connectors, getConnectorPointsForNode node layout = Ok connectors.
Proof.
  intros [Hx Hy]. unfold getConnectorPointsForNode. rewrite Hx, Hy. simpl.
  eexists. reflexivity.
Qed.

(** With both nodes placed [curvedPath] returns, and the points it leaves
    in the edge are those of the pinned array. *)
Lemma curvedPath_Ok (fractionToString : R -> string) (edge : Edge)
  (layout : option LayoutOptions) (sx sy dx dy : R) :
  placedAt (src edge) sx sy ->
  placedAt (dest edge) dx dy ->
  exists pinned path,
    curvedPath fractionToString edge layout
    = Ok (mkEdge (src edge) (dest edge) pinned, path)
    /\ List.length pinned
       = if (List.length (points edge) =? 0)%nat
         then 2%nat else List.length (points edge).
Proof.
  intros Hsrc Hdest. unfold curvedPath.
  set (l := match layout with Some l0 => l0 | None => _ end).
  destruct (getConnectorPointsForNode_Ok _ l _ _ Hsrc) as [cs Hcs].
  destruct (getConnectorPointsForNode_Ok _ l _ _ Hdest) as [cd Hcd].
  rewrite Hcs, Hcd. cbn [bind].
  destruct (pinEndpoints_elements (points edge) (output cs) (input cd))
    as [pinned [Hpin Hlen]].
  rewrite Hpin, dense_map_Some. cbn [bind].
  destruct (createPointData_Ok pinned l) as [data [Hdata _]].
  rewrite Hdata. cbn [bind].
  exists pinned. eexists. split; [reflexivity | exact Hlen].
Qed.

(** C1, as stated: refuted by an edge with a single waypoint, whose array
    still has length 1 after the call. *)
Lemma curvedPath_single_point_stays_single :
  ~ (forall (fractionToString : R -> string) (edge : Edge)
            (layout : option LayoutOptions) (edge' : Edge) (path : string),
        curvedPath fractionToString edge layout = Ok (edge', path) ->
        (2 <= List.length (points edge'))%nat).
Proof.
  intros H.
  set (n := mkNode "n" (Some 0) (Some 0) 10 10).
  set (e := mkEdge n n [mkPoint 3 4]).
  destruct (curvedPath_Ok (fun _ => ""%string) e None 0 0 0 0)
    as [pinned [path [Hrun Hlen]]]; try (split; reflexivity).
  specialize (H _ _ _ _ _ Hrun). cbn in H, Hlen. lia.
Qed.

(** C1, amended.  For an edge between two placed nodes [curvedPath]
    returns, and the array of points it leaves has length 2 when the
    waypoint list was empty and the length of the list otherwise; so it
    has at least 2 points for every list that is not a single point. *)
Theorem curvedPath_points_length (fractionToString : R -> string)
  (edge : Edge) (layout : option LayoutOptions) (sx sy dx dy : R) :
  placedAt (src edge) sx sy ->
  placedAt (dest edge) dx dy ->
  exists edge' path,
    curvedPath fractionToString edge layout = Ok (edge', path)
    /\ List.length (points edge')
       = (if (List.length (points edge) =? 0)%nat
          then 2%nat else List.length (points edge))
    /\ (List.length (points edge) <> 1%nat ->
        (2 <= List.length (points edge'))%nat).
Proof.
  intros Hsrc Hdest.
  destruct (curvedPath_Ok fractionToString edge layout sx sy dx dy Hsrc Hdest)
    as [pinned [path [Hrun Hlen]]].
  exists (mkEdge (src edge) (dest edge) pinned), path.
  split; [exact Hrun|]. cbn [points]. split; [exact Hlen|].
  intros Hne. rewrite Hlen.
  destruct (List.length (points edge)) as [|[|n]]; cbn; lia.
Qed.

(** An edge without waypoints between two placed nodes. *)
Lemma curvedPath_points_length_witness :
  let a := mkNode "a" (Some 50) (Some 25) 100 50 in
  let b := mkNode "b" (Some 50) (Some 125) 100 50 in
  exists edge' path,
    curvedPath (fun _ => ""%string) (mkEdge a b []) None = Ok (edge', path)
    /\ List.length (points edge') = 2%nat
    /\ (0%nat <> 1%nat -> (2 <= List.length (points edge'))%nat).
Proof.
  intros a b.
  apply (curvedPath_points_length (fun _ => ""%string) (mkEdge a b []) None
           50 25 50 125); split; reflexivity.
Defined.



(** ** The arrowhead *)

Lemma trianglePoints_throws_iff (fractionToString : R -> string) (edge : Edge)
  (layout : LayoutOptions) :
  (exists message, trianglePoints fractionToString edge layout
                   = Throw (RangeError message))
  <-> nx (dest edge) = None \/ nx (dest edge) = Some 0
      \/ ny (dest edge) = None \/ ny (dest edge) = Some 0.
Proof.
  unfold trianglePoints.
  destruct (nx (dest edge)) as [x|], (ny (dest edge)) as [y|]; cbn [not_ orb].
  - destruct (Reqb x 0) eqn:Ex; cbn [orb].
    + apply Reqb_true_iff in Ex. subst x. split; [tauto | intros _; eauto].
    + destruct (Reqb y 0) eqn:Ey.
      * apply Reqb_true_iff in Ey. subst y. split; [tauto | intros _; eauto].
      * apply Reqb_false_iff in Ex, Ey. split.
        -- intros [m Hm]. discriminate.
        -- intros [H|[H|[H|H]]]; try discriminate; inversion H; contradiction.
  - destruct (Reqb x 0); cbn [orb]; (split; [tauto | intros _; eauto]).
  - split; [tauto | intros _; eauto].
  - split; [tauto | intros _; eauto].
Qed.

(** C5: the code at a destination placed on the [y] axis.  The position
    is set, and [trianglePoints] throws the range error all the same, in
    every rank direction. *)
Theorem trianglePoints_throws_at_zero_coordinate
  (fractionToString : R -> string) (layout : LayoutOptions) :
  let a := mkNode "a" (Some 0) (Some 20) 0 40 in
  let b := mkNode "b" (Some 0) (Some 100) 0 40 in
  trianglePoints fractionToString (mkEdge a b []) layout
  = Throw (RangeError "Edge point should not be a nullish value.").
Proof.
  intros a b. unfold trianglePoints. subst a b. cbn [dest nx ny not_].
  rewrite (proj2 (Reqb_true_iff 0 0)) by reflexivity. reflexivity.
Qed.

(** ** The engine under the camera *)

Lemma pan_good (pz : SvgPanZoom.Instance) (point : Point) :
  configured pz -> goodEngine (SvgPanZoom.pan pz point).
Proof.
  intros [Hmin [Hmax [Hhook Hpan]]]. split.
  - now split; [|split; [|split]].
  - unfold wholePixels, SvgPanZoom.pan. cbn [SvgPanZoom.currentPan].
    rewrite Hhook. cbn [beforePanHook px py].
    split; apply Math_round_isInteger.
Qed.

Lemma zoom_good (pz : SvgPanZoom.Instance) (zoomLevel : R) :
  goodEngine pz -> goodEngine (SvgPanZoom.zoom pz zoomLevel).
Proof. intros [H1 H2]. split; [exact H1 | exact H2]. Qed.

Lemma updateBBox_good (el : SVGElement) (pz : SvgPanZoom.Instance) :
  goodEngine pz -> goodEngine (SvgPanZoom.updateBBox el pz).
Proof. intros [H1 H2]. split; [exact H1 | exact H2]. Qed.

Lemma resize_good (el : SVGElement) (pz : SvgPanZoom.Instance) :
  goodEngine pz -> goodEngine (SvgPanZoom.resize el pz).
Proof. intros [H1 H2]. split; [exact H1 | exact H2]. Qed.

Lemma destroy_good (pz : SvgPanZoom.Instance) :
  goodEngine pz -> goodEngine (SvgPanZoom.destroy pz).
Proof. intros [H1 H2]. split; [exact H1 | exact H2]. Qed.

Lemma centerPan_good (pz : SvgPanZoom.Instance) :
  configured pz -> goodEngine (SvgPanZoom.centerPan pz).
Proof. intros H. unfold SvgPanZoom.centerPan. now apply pan_good. Qed.

Lemma fitZoom_good (pz pz' : SvgPanZoom.Instance) :
  SvgPanZoom.fitZoom pz = Ok pz' -> goodEngine pz -> goodEngine pz'.
Proof.
  unfold SvgPanZoom.fitZoom. intros H Hg.
  destruct (divide _ _); try discriminate. cbn [bind] in H.
  destruct (divide _ _); try discriminate. cbn [bind] in H.
  inversion H. now apply zoom_good.
Qed.

Lemma callStopFn_good (stopFn : StopFn) :
  goodStopFn stopFn -> goodStopFn (callStopFn stopFn).
Proof.
  destruct stopFn as [a|]; [|trivial]. unfold callStopFn.
  now destruct (handle a).
Qed.

Lemma callStopFn_inactive (stopFn : StopFn) : isActive (callStopFn stopFn) = false.
Proof.
  destruct stopFn as [a|]; [|reflexivity]. unfold callStopFn.
  destruct (handle a) eqn:E; simpl; [reflexivity | now rewrite E].
Qed.

(** ** The camera *)

Lemma fitWithoutZoomingIn_inv (c c' : GraphCamera) :
  fitWithoutZoomingIn c = Ok c' ->
  exists pz',
    c' = set_panZoom c pz'
    /\ (goodEngine (panZoom c) ->
        goodEngine pz' /\ 0.1 <= SvgPanZoom.currentZoom pz' <= 1).
Proof.
  unfold fitWithoutZoomingIn. intros H.
  destruct (SvgPanZoom.fitZoom (panZoom c)) as [pz| |] eqn:Efit; try discriminate.
  cbn [bind] in H. cbn [panZoom set_panZoom] in H.
  destruct (Rgtb (SvgPanZoom.getZoom pz) 1) eqn:E; inversion H; subst c'; clear H;
    eexists; (split; [reflexivity|]); intros Hg;
    pose proof (fitZoom_good _ _ Efit Hg) as Hpz;
    (split; [now apply zoom_good|]);
    destruct Hpz as [[Hmin [Hmax _]] _];
    unfold SvgPanZoom.zoom; cbn [SvgPanZoom.currentZoom SvgPanZoom.options];
    rewrite Hmin, Hmax.
  - minmax.
  - apply Rgtb_false_iff in E. unfold SvgPanZoom.getZoom in *.
    unfold FIT_PADDING_PERCENT. minmax.
Qed.

Lemma reset_inv (c c' : GraphCamera) :
  reset c = Ok c' ->
  stopSmoothPanFn c' = callStopFn (stopSmoothPanFn c)
  /\ stopSmoothZoomFn c' = callStopFn (stopSmoothZoomFn c)
  /\ stopSmoothPanAndZoomFn c' = stopSmoothPanAndZoomFn c
  /\ resizeSub c' = resizeSub c
  /\ (configured (panZoom c) ->
      goodEngine (panZoom c') /\ 0.1 <= getZoom c' <= 1).
Proof.
  unfold reset. intros H.
  apply fitWithoutZoomingIn_inv in H. destruct H as [pz' [-> Hgood]].
  cbn in Hgood |- *.
  split; [reflexivity|]. split; [reflexivity|]. split; [reflexivity|].
  split; [reflexivity|].
  intros Hc. apply Hgood. now apply centerPan_good.
Qed.

Lemma reset_Ok (c : GraphCamera) :
  vb_width (measuredBBox (svgEl c)) <> 0 ->
  vb_height (measuredBBox (svgEl c)) <> 0 ->
  exists c', reset c = Ok c'.
Proof.
  intros Hw Hh. unfold reset, fitWithoutZoomingIn, SvgPanZoom.fitZoom. cbn.
  rewrite (divide_Ok _ _ Hw), (divide_Ok _ _ Hh). cbn [bind].
  match goal with |- context [Rgtb ?a ?b] => destruct (Rgtb a b) end;
    eexists; reflexivity.
Qed.

Lemma smoothPan_good (c : GraphCamera) (point : Point) (durationMs : option R)
  (now : R) :
  goodCamera c -> goodCamera (smoothPan c point durationMs now).
Proof.
  intros [Hpz [Hp [Hz Hpzm]]]. unfold smoothPan, animateOver. cbn.
  split; [exact Hpz|]. split; [|split; assumption].
  intros progress pz [Hc _]. now apply pan_good.
Qed.

Lemma smoothZoom_good (c : GraphCamera) (zoomLevel : R) (durationMs : option R)
  (now : R) :
  goodCamera c -> goodCamera (smoothZoom c zoomLevel durationMs now).
Proof.
  intros [Hpz [Hp [Hz Hpzm]]]. unfold smoothZoom, animateOver. cbn.
  split; [exact Hpz|]. split; [exact Hp|]. split; [|exact Hpzm].
  intros progress pz Hg. now apply zoom_good.
Qed.

Lemma smoothPanAndZoom_good (c : GraphCamera) (point : Point) (zoomLevel : R)
  (durationMs : option R) (now : R) :
  goodCamera c -> goodCamera (smoothPanAndZoom c point zoomLevel durationMs now).
Proof.
  intros [Hpz [Hp [Hz Hpzm]]]. unfold smoothPanAndZoom, animateOver. cbn.
  split; [exact Hpz|]. split; [exact Hp|]. split; [exact Hz|].
  intros progress pz [Hc _]. apply zoom_good. now apply pan_good.
Qed.

Lemma reset_good (c c' : GraphCamera) :
  reset c = Ok c' -> goodCamera c -> goodCamera c'.
Proof.
  intros H [[Hc Hw] [Hp [Hz Hpzm]]].
  destruct (reset_inv _ _ H) as [Ep [Ez [Epz [_ Hg]]]].
  split; [now apply Hg|]. rewrite Ep, Ez, Epz.
  split; [now apply callStopFn_good|]. split; [now apply callStopFn_good|].
  exact Hpzm.
Qed.

Lemma panIntoView_good (c c' : GraphCamera) (region : Rect) (padding : option R)
  (now : R) :
  panIntoView c region padding now = Ok c' -> goodCamera c -> goodCamera c'.
Proof.
  unfold panIntoView. intros H Hg.
  set (c1 := set_panZoom (set_panZoom c _) _) in H.
  assert (Hg1 : goodCamera c1).
  { destruct Hg as [Hpz [Hp [Hz Hpzm]]]. subst c1. cbn.
    split; [|split; [|split]]; try assumption.
    all: try now apply resize_good, updateBBox_good. }
  destruct (getVisibleRegionInWorldSpace c1); try discriminate. cbn [bind] in H.
  match type of H with (if ?b then _ else _) = _ => destruct b end;
    inversion H; subst c'; [exact Hg1 | now apply smoothPan_good].
Qed.

Lemma frameFn_good (ch : Channel) (now : R) (c c' : GraphCamera) :
  frameFn ch now c = Ok c' -> goodCamera c -> goodCamera c'.
Proof.
  unfold frameFn. intros H Hg.
  destruct (stopFnOf ch c) as [a|] eqn:Ea; [|inversion H; now subst].
  destruct (handle a); [|inversion H; now subst].
  destruct (divide _ _) as [ratio| |]; try discriminate. cbn [bind] in H.
  assert (Ha : goodStopFn (Some a)).
  { destruct Hg as [_ [Hp [Hz Hpzm]]]. rewrite <- Ea. now destruct ch. }
  destruct Hg as [Hpz [Hp [Hz Hpzm]]].
  pose proof (Ha (easeInAndOut (Rmin ratio 1)) _ Hpz) as Hpz'.
  destruct (Rltb _ _); inversion H; subst c'; clear H;
    destruct ch; cbn; (split; [exact Hpz'|]);
      (split; [|split]); assumption || exact Ha.
Qed.

Lemma step_good (c c' : GraphCamera) (call : Call) :
  step c call = Ok c' -> goodCamera c -> goodCamera c'.
Proof.
  destruct call; cbn [step]; intros H Hg;
    try (inversion H; subst c'; clear H).
  - (* destroy *)
    destruct Hg as [Hpz [Hp [Hz Hpzm]]]. unfold destroy.
    destruct (resizeSub c); cbn;
      (split; [now apply destroy_good|]);
      (split; [now apply callStopFn_good|]);
      (split; [now apply callStopFn_good|]); exact Hpzm.
  - now apply (reset_good c).
  - (* smoothReset *)
    unfold smoothReset, smoothCenterAndFitWithoutZoomingIn in H.
    destruct (divide _ _); try discriminate. cbn [bind] in H.
    destruct (divide _ _); try discriminate. cbn [bind] in H.
    inversion H; subst c'. apply smoothPanAndZoom_good.
    destruct Hg as [Hpz [Hp [Hz Hpzm]]]. cbn.
    split; [now apply resize_good, updateBBox_good|].
    split; [now apply callStopFn_good|].
    split; [now apply callStopFn_good | exact Hpzm].
  - now apply smoothZoom_good.
  - now apply smoothZoom_good.
  - destruct Hg as [Hpz [Hp [Hz Hpzm]]]. unfold pan. cbn.
    split; [apply pan_good; apply Hpz|]. split; [|split]; assumption.
  - destruct Hg as [Hpz [Hp [Hz Hpzm]]]. unfold zoom. cbn.
    split; [now apply zoom_good|]. split; [|split]; assumption.
  - now apply smoothPan_good.
  - now apply smoothZoom_good.
  - now apply smoothPanAndZoom_good.
  - unfold panNodeIntoView in H.
    destruct (nodeToRect node); try discriminate. cbn [bind] in H.
    now apply (panIntoView_good c c' value padding now).
  - now apply (panIntoView_good c c' region padding now).
  - now apply (frameFn_good ch now c).
  - unfold onWindowResize in H. destruct (resizeSub c) as [[|]|];
      try (inversion H; now subst). now apply (reset_good c).
  - destruct Hg as [Hpz [Hp [Hz Hpzm]]]. unfold userDrag.
    destruct (panEnabled _); cbn; [|split; [|split; [|split]]; assumption].
    split; [apply pan_good; apply Hpz|]. split; [|split]; assumption.
  - exact Hg.
Qed.

Lemma run_good (calls : list Call) (c c' : GraphCamera) :
  run c calls = Ok c' -> goodCamera c -> goodCamera c'.
Proof.
  revert c. induction calls as [|call calls IH]; intros c H Hg; simpl in H.
  - inversion H. now subst.
  - destruct (step c call) as [c1| |] eqn:E; try discriminate. cbn [bind] in H.
    apply (IH c1 H). now apply (step_good c c1 call).
Qed.

(** What the constructor leaves behind: the engine configured with the
    rounding hook and the sensitivity of the platform, the pan on whole
    pixels, the zoom between 0.1 and 1, no animation. *)
Lemma newGraphCamera_inv (options : CameraOptions) (userAgent : string)
  (c : GraphCamera) :
  newGraphCamera options userAgent = Ok c ->
  goodCamera c
  /\ 0.1 <= getZoom c <= 1
  /\ zoomScaleSensitivity (SvgPanZoom.options (panZoom c))
     = (if includes userAgent "Macintosh"
        then MAC_ZOOM_SENSITIVITY else ZOOM_SENSITIVITY)
  /\ stopSmoothPanFn c = None
  /\ stopSmoothZoomFn c = None
  /\ stopSmoothPanAndZoomFn c = None.
Proof.
  unfold newGraphCamera. intros H.
  destruct (negb (hasRootGroup (o_svgEl options))); try discriminate.
  set (opts := mkOptions _ _ _ _ _ _ _ _ _ _) in H.
  set (c0 := mkGraphCamera _ _ _ _ _ _ _ _) in H.
  destruct (reset c0) as [c1| |] eqn:Ereset; try discriminate. cbn [bind] in H.
  destruct (reset_inv _ _ Ereset) as [Ep [Ez [Epz [Esub Hg]]]].
  assert (Hopts : SvgPanZoom.options (panZoom c0) = opts).
  { subst c0. cbn [panZoom]. unfold SvgPanZoom.create. cbn [center opts].
    reflexivity. }
  assert (Hconf : configured (panZoom c0)).
  { unfold configured. rewrite Hopts. subst opts. cbn. repeat split; reflexivity. }
  destruct (Hg Hconf) as [Hgood Hzoom].
  assert (Hopts1 : SvgPanZoom.options (panZoom c1) = opts).
  { unfold reset, fitWithoutZoomingIn, SvgPanZoom.fitZoom in Ereset.
    destruct (divide _ _); try discriminate. cbn [bind] in Ereset.
    destruct (divide _ _); try discriminate. cbn [bind] in Ereset.
    destruct (Rgtb _ _); inversion Ereset; cbn; exact Hopts. }
  assert (Hall : goodCamera c1 /\ 0.1 <= getZoom c1 <= 1
                 /\ zoomScaleSensitivity (SvgPanZoom.options (panZoom c1))
                    = (if includes userAgent "Macintosh"
                       then MAC_ZOOM_SENSITIVITY else ZOOM_SENSITIVITY)
                 /\ stopSmoothPanFn c1 = None /\ stopSmoothZoomFn c1 = None
                 /\ stopSmoothPanAndZoomFn c1 = None).
  { rewrite Hopts1. unfold goodCamera. rewrite Ep, Ez, Epz. subst c0 opts. cbn.
    split; [split; [exact Hgood | now split; [|split]]|].
    split; [exact Hzoom|]. split; [reflexivity|]. now split; [|split]. }
  destruct (o_autoResetOnWindowResize options) as [[|]|];
    try (inversion H; subst c; exact Hall).
  destruct (o_windowRef options); try discriminate.
  inversion H; subst c. exact Hall.
Qed.

Lemma newGraphCamera_Ok (options : CameraOptions) (userAgent : string) :
  hasRootGroup (o_svgEl options) = true ->
  vb_width (measuredBBox (o_svgEl options)) <> 0 ->
  vb_height (measuredBBox (o_svgEl options)) <> 0 ->
  o_autoResetOnWindowResize options <> Some true ->
  exists c, newGraphCamera options userAgent = Ok c.
Proof.
  intros Hroot Hw Hh Hauto. unfold newGraphCamera. rewrite Hroot. cbn [negb].
  match goal with |- context [reset ?c0] =>
    destruct (reset_Ok c0 Hw Hh) as [c1 Hc1]; rewrite Hc1 end.
  cbn [bind].
  destruct (o_autoResetOnWindowResize options) as [[|]|];
    [congruence | eexists; reflexivity | eexists; reflexivity].
Qed.

Lemma easeInAndOut_1 : easeInAndOut 1 = 1.
Proof. unfold easeInAndOut. ring. Qed.

(** The frame that runs once the duration is over is the last one of a
    smooth zoom: it asks the engine for the target level and requests no
    further frame. *)
Lemma smoothZoom_last_frame (c : GraphCamera) (zoomLevel : R)
  (duration : option R) (now t : R) :
  0 < orDefault duration 250 -> now + orDefault duration 250 <= t ->
  exists c',
    frameFn ZoomChannel t (smoothZoom c zoomLevel duration now) = Ok c'
    /\ panZoom c' = SvgPanZoom.zoom (panZoom c) zoomLevel
    /\ isActive (stopSmoothZoomFn c') = false.
Proof.
  intros Hd Ht. unfold frameFn, smoothZoom, animateOver.
  remember (orDefault duration 250) as d eqn:Ed in *. clear Ed.
  cbn [stopFnOf stopSmoothZoomFn set_lastHandle set_stopSmoothZoomFn handle
       start durationMs callback panZoom].
  rewrite divide_Ok by lra. cbn [bind].
  assert (Hratio : 1 <= (t - now) / d).
  { unfold Rdiv. pose proof (Rinv_0_lt_compat d Hd).
    assert (d * / d = 1) by (apply Rinv_r; lra). nra. }
  rewrite Rmin_right by exact Hratio. rewrite easeInAndOut_1.
  rewrite (proj2 (Rltb_false_iff (t - now) d)) by lra.
  eexists. split; [reflexivity|]. split; [|reflexivity].
  cbn. f_equal. unfold SvgPanZoom.getZoom. ring.
Qed.

(** C6: the code after [smoothPanAndZoom].  [destroy] and [reset] call
    the stop functions of the pan and of the zoom animation and never the
    one of the combined animation, whose frame stays requested. *)
Theorem combined_animation_survives_destroy_and_reset
  (c : GraphCamera) (point : Point) (zoomLevel : R) (durationMs : option R)
  (now : R) :
  let c1 := smoothPanAndZoom c point zoomLevel durationMs now in
  isActive (stopSmoothPanAndZoomFn (destroy c1)) = true
  /\ isActive (stopSmoothPanFn (destroy c1)) = false
  /\ isActive (stopSmoothZoomFn (destroy c1)) = false
  /\ SvgPanZoom.destroyed (panZoom (destroy c1)) = true
  /\ forall c2, reset c1 = Ok c2 ->
       isActive (stopSmoothPanAndZoomFn c2) = true
       /\ isActive (stopSmoothPanFn c2) = false
       /\ isActive (stopSmoothZoomFn c2) = false.
Proof.
  intros c1.
  assert (Hactive : isActive (stopSmoothPanAndZoomFn c1) = true) by reflexivity.
  split; [|split; [|split; [|split]]].
  - unfold destroy. now destruct (resizeSub c1).
  - unfold destroy. destruct (resizeSub c1); cbn; apply callStopFn_inactive.
  - unfold destroy. destruct (resizeSub c1); cbn; apply callStopFn_inactive.
  - unfold destroy. now destruct (resizeSub c1).
  - intros c2 H2. destruct (reset_inv _ _ H2) as [Ep [Ez [Epz _]]].
    rewrite Ep, Ez, Epz.
    split; [exact Hactive|]. split; apply callStopFn_inactive.
Qed.

(** A camera over a canvas of 800 by 600 showing a graph of 100 by 100,
    in the middle of a smooth reset when [reset] is called. *)
Lemma combined_animation_survives_destroy_and_reset_witness :
  let el := mkSVGElement true (mkRect 0 0 600 800) 800 600
                         (mkViewBox 0 0 100 100) in
  let opts := mkOptions false false true ZOOM_SENSITIVITY None true 0.1 2 false
                        beforePanHook in
  let c := mkGraphCamera el (SvgPanZoom.create el opts) None None None None
                         false 0 in
  let c1 := smoothPanAndZoom c (mkPoint 350 250) 1 (Some 250) 0 in
  exists c2,
    reset c1 = Ok c2
    /\ isActive (stopSmoothPanAndZoomFn c2) = true
    /\ isActive (stopSmoothPanFn c2) = false
    /\ isActive (stopSmoothZoomFn c2) = false.
Proof.
  intros el opts c c1.
  destruct (reset_Ok c1) as [c2 H2].
  - cbn. lra.
  - cbn. lra.
  - exists c2. split; [exact H2|].
    exact (proj2 (proj2 (proj2 (proj2
             (combined_animation_survives_destroy_and_reset
                c (mkPoint 350 250) 1 (Some 250) 0)))) c2 H2).
Defined.




Lemma frameFn_Ok (ch : Channel) (now : R) (c : GraphCamera) :
  (forall a, stopFnOf ch c = Some a -> durationMs a <> 0) ->
  exists c', frameFn ch now c = Ok c'.
Proof.
  intros Hd. unfold frameFn.
  destruct (stopFnOf ch c) as [a|]; [|eexists; reflexivity].
  destruct (handle a); [|eexists; reflexivity].
  rewrite (divide_Ok _ _ (Hd a eq_refl)). cbn [bind].
  destruct (Rltb _ _); eexists; reflexivity.
Qed.

(** C10.  The hook handed to the engine rounds both coordinates of the
    target to the nearest integer.  On a camera made by the constructor,
    whatever is called afterwards (direct pans, smooth pans and their
    frames, panning into view, resets, drags by the user), the pan offset
    has integer coordinates, and the next pan or drag lands on the rounded
    target. *)
Theorem pan_always_on_whole_pixels (options : CameraOptions)
  (userAgent : string) (c c' : GraphCamera) (calls : list Call) :
  newGraphCamera options userAgent = Ok c ->
  run c calls = Ok c' ->
  (forall oldPoint target : Point,
     beforePanHook oldPoint target
     = mkPoint (Math_round (px target)) (Math_round (py target)))
  /\ (forall r : R,
        isInteger (Math_round r) /\ r - / 2 < Math_round r <= r + / 2)
  /\ beforePan (SvgPanZoom.options (panZoom c')) = beforePanHook
  /\ isInteger (px (getPan c'))
  /\ isInteger (py (getPan c'))
  /\ (forall target : Point,
        getPan (pan c' target)
        = mkPoint (Math_round (px target)) (Math_round (py target)))
  /\ (forall target : Point,
        getPan (userDrag c' target)
        = mkPoint (Math_round (px target)) (Math_round (py target))).
Proof.
  intros Hnew Hrun.
  destruct (newGraphCamera_inv _ _ _ Hnew) as [Hgood _].
  pose proof (run_good calls c c' Hrun Hgood) as [[Hconf [Hx Hy]] _].
  destruct Hconf as [Hmin [Hmax [Hhook Hpan]]].
  split; [reflexivity|].
  split; [intros r; split; [apply Math_round_isInteger | apply Math_round_nearest]|].
  split; [exact Hhook|]. split; [exact Hx|]. split; [exact Hy|]. split.
  - intros target. unfold getPan, pan, SvgPanZoom.getPan, SvgPanZoom.pan. cbn.
    now rewrite Hhook.
  - intros target. unfold getPan, userDrag. rewrite Hpan.
    unfold SvgPanZoom.getPan, SvgPanZoom.pan. cbn. now rewrite Hhook.
Qed.

(** A camera over a canvas of 800 by 600 showing a graph of 100 by 100: a
    direct pan, a smooth pan with one of its frames, and a drag. *)
Lemma pan_always_on_whole_pixels_witness :
  let el := mkSVGElement true (mkRect 0 0 600 800) 800 600
                         (mkViewBox 0 0 100 100) in
  let options := mkCameraOptions el None None None in
  let calls := [CallPan (mkPoint 1.5 2.25);
                CallSmoothPan (mkPoint 10.4 3) None 0;
                Frame PanChannel 100;
                UserDrag (mkPoint 0.3 7.7)] in
  exists c c',
    newGraphCamera options "Mozilla/5.0 (X11; Linux x86_64)" = Ok c
    /\ run c calls = Ok c'
    /\ isInteger (px (getPan c'))
    /\ isInteger (py (getPan c')).
Proof.
  intros el options calls.
  destruct (newGraphCamera_Ok options "Mozilla/5.0 (X11; Linux x86_64)")
    as [c Hc]; try (cbn; lra); try reflexivity; try discriminate.
  set (c1 := smoothPan (pan c (mkPoint 1.5 2.25)) (mkPoint 10.4 3) None 0).
  destruct (frameFn_Ok PanChannel 100 c1) as [c2 Hc2].
  { intros a Ha. cbn in Ha. inversion Ha. cbn. lra. }
  assert (Hrun : run c calls = Ok (userDrag c2 (mkPoint 0.3 7.7))).
  { subst calls. cbn [run step bind]. fold c1. rewrite Hc2. reflexivity. }
  exists c, (userDrag c2 (mkPoint 0.3 7.7)).
  split; [exact Hc|]. split; [exact Hrun|].
  pose proof (pan_always_on_whole_pixels options _ c _ calls Hc Hrun)
    as [_ [_ [_ [Hx [Hy _]]]]].
  split; [exact Hx | exact Hy].
Defined.

(** * Further properties of the geometry *)

Lemma length_nonneg (v : Vector.t) : 0 <= Vector.length v.
Proof. unfold Vector.length. apply sqrt_pos. Qed.

Lemma length_sqr (v : Vector.t) :
  Vector.length v * Vector.length v
  = Vector.x v * Vector.x v + Vector.y v * Vector.y v.
Proof. unfold Vector.length. apply sqrt_sqrt. nra. Qed.

Lemma length_zero_iff (v : Vector.t) :
  Vector.length v = 0 <-> Vector.x v = 0 /\ Vector.y v = 0.
Proof.
  split.
  - intros H. pose proof (length_sqr v) as Hs. rewrite H in Hs. nra.
  - intros [Hx Hy]. unfold Vector.length. rewrite Hx, Hy.
    replace (0 * 0 + 0 * 0) with 0 by ring. apply sqrt_0.
Qed.

Lemma normalize_nonzero (v : Vector.t) :
  Vector.length v <> 0 ->
  Vector.normalize v
  = Vector.mk (Vector.x v * (1 / Vector.length v))
              (Vector.y v * (1 / Vector.length v)).
Proof.
  intros H. unfold Vector.normalize, Vector.multiplyScalar.
  now rewrite (proj2 (Reqb_false_iff _ _) H).
Qed.

Lemma normalize_zero_length (v : Vector.t) :
  Vector.length v = 0 -> Vector.normalize v = Vector.mk 0 0.
Proof.
  intros H. unfold Vector.normalize, Vector.multiplyScalar.
  rewrite (proj2 (Reqb_true_iff _ _) H).
  apply length_zero_iff in H. destruct H as [-> ->]. f_equal; ring.
Qed.

(** The length of a normalized vector is 1 unless the vector is zero, and
    scaling the normalized vector by the old length gives the vector
    back; normalizing twice is normalizing once. *)
Theorem normalize_unit_length (v : Vector.t) :
  (Vector.x v <> 0 \/ Vector.y v <> 0 ->
   Vector.length (Vector.normalize v) = 1
   /\ Vector.multiplyScalar (Vector.normalize v) (Vector.length v) = v)
  /\ Vector.normalize (Vector.normalize v) = Vector.normalize v.
Proof.
  assert (Hunit : Vector.length v <> 0 ->
                  Vector.length (Vector.normalize v) = 1).
  { intros Hl. rewrite (normalize_nonzero v Hl).
    unfold Vector.length at 1. cbn [Vector.x Vector.y].
    apply sqrt_lem_1; [|lra|].
    - nra.
    - pose proof (length_sqr v) as Hs.
      replace (Vector.x v * (1 / Vector.length v)
               * (Vector.x v * (1 / Vector.length v))
               + Vector.y v * (1 / Vector.length v)
                 * (Vector.y v * (1 / Vector.length v)))
        with ((Vector.x v * Vector.x v + Vector.y v * Vector.y v)
              / (Vector.length v * Vector.length v))
        by (field; exact Hl).
      rewrite <- Hs. field. exact Hl. }
  split.
  - intros Hv.
    assert (Hl : Vector.length v <> 0).
    { intros H0. apply length_zero_iff in H0. tauto. }
    split; [now apply Hunit|].
    rewrite (normalize_nonzero v Hl). unfold Vector.multiplyScalar.
    cbn [Vector.x Vector.y]. destruct v as [x y]. cbn [Vector.x Vector.y].
    f_equal; field; exact Hl.
  - destruct (Req_dec_T (Vector.length v) 0) as [H0|Hl].
    + rewrite (normalize_zero_length v H0).
      apply normalize_zero_length. apply length_zero_iff. now split.
    + pose proof (Hunit Hl) as H1.
      rewrite (normalize_nonzero (Vector.normalize v)) by lra.
      rewrite H1. destruct (Vector.normalize v) as [x y].
      cbn [Vector.x Vector.y]. f_equal; field.
Qed.

(** The vector (3, 4), of length 5. *)
Lemma normalize_unit_length_witness :
  Vector.length (Vector.normalize (Vector.mk 3 4)) = 1
  /\ Vector.multiplyScalar (Vector.normalize (Vector.mk 3 4))
                           (Vector.length (Vector.mk 3 4))
     = Vector.mk 3 4.
Proof.
  apply (proj1 (normalize_unit_length (Vector.mk 3 4))).
  left. cbn. lra.
Defined.

(** The distance computed by [getDistanceFromLine], times the length of
    the line, is the absolute value of the cross product of
    start-to-point and start-to-end: the distance from the straight line,
    and 0 when the two ends of the line are the same point.  Swapping the
    two ends does not change it. *)
Theorem getDistanceFromLine_perpendicular (lineStart lineEnd p : Point) :
  getDistanceFromLine lineStart lineEnd p
  * Vector.length (createVectorBetweenPoints lineStart lineEnd)
  = Rabs ((px p - px lineStart) * (py lineEnd - py lineStart)
          - (py p - py lineStart) * (px lineEnd - px lineStart))
  /\ 0 <= getDistanceFromLine lineStart lineEnd p
  /\ getDistanceFromLine lineEnd lineStart p
     = getDistanceFromLine lineStart lineEnd p
  /\ getDistanceFromLine lineStart lineStart p = 0.
Proof.
  assert (Hform : forall a b q,
             getDistanceFromLine a b q
             = Rabs ((px q - px a) * (py b - py a)
                     - (py q - py a) * (px b - px a))
               * (if Reqb (Vector.length (createVectorBetweenPoints a b)) 0
                  then 0
                  else 1 / Vector.length (createVectorBetweenPoints a b))).
  { intros a b q.
    unfold getDistanceFromLine, Vector.normalize, Vector.multiplyScalar,
      Vector.dot, createPerpendicularVector.
    set (L := Vector.length (createVectorBetweenPoints a b)).
    assert (HL : 0 <= L) by apply length_nonneg.
    unfold createVectorBetweenPoints. cbn [Vector.x Vector.y].
    set (m := if Reqb L 0 then 0 else 1 / L).
    assert (Hm : 0 <= m).
    { subst m. destruct (Reqb L 0) eqn:E; [lra|].
      apply Reqb_false_iff in E. unfold Rdiv. rewrite Rmult_1_l.
      apply Rlt_le, Rinv_0_lt_compat. lra. }
    replace ((px q - px a) * - ((py b - py a) * m)
             + (py q - py a) * ((px b - px a) * m))
      with (- (((px q - px a) * (py b - py a)
                - (py q - py a) * (px b - px a)) * m)) by ring.
    now rewrite Rabs_Ropp, Rabs_mult, (Rabs_pos_eq m Hm). }
  assert (Hlen : Vector.length (createVectorBetweenPoints lineEnd lineStart)
                 = Vector.length (createVectorBetweenPoints lineStart lineEnd)).
  { unfold Vector.length, createVectorBetweenPoints. cbn [Vector.x Vector.y].
    f_equal. ring. }
  split; [|split; [|split]].
  - rewrite Hform.
    destruct (Reqb _ 0) eqn:E.
    + apply Reqb_true_iff in E. rewrite E.
      apply length_zero_iff in E. unfold createVectorBetweenPoints in E.
      cbn [Vector.x Vector.y] in E. destruct E as [Ex Ey].
      replace (py lineEnd - py lineStart) with 0 by lra.
      replace (px lineEnd - px lineStart) with 0 by lra.
      replace ((px p - px lineStart) * 0 - (py p - py lineStart) * 0)
        with 0 by ring.
      rewrite Rabs_R0. ring.
    + apply Reqb_false_iff in E. field. exact E.
  - unfold getDistanceFromLine. apply Rabs_pos.
  - rewrite !Hform, Hlen. f_equal.
    rewrite <- (Rabs_Ropp ((px p - px lineStart) * _ - _)). f_equal. ring.
  - apply getDistanceFromLine_collinear. unfold collinear. ring.
Qed.





(** Which way is backwards: in a top-to-bottom layout (also the default
    without a rank direction) a line goes backwards exactly when it goes
    up, that is when [y] decreases; bottom-to-top, when [y] increases;
    left-to-right, when [x] decreases; right-to-left, when [x] increases.
    The other coordinate plays no part. *)
Theorem backwards_means_against_the_axis (p1 p2 : Point) :
  let backwards d := isLineGoingBackwards p1 p2 (getLayoutVector (mkLayout d)) in
  (backwards (Some TOP_TO_BOTTOM) = true <-> py p2 < py p1)
  /\ (backwards None = true <-> py p2 < py p1)
  /\ (backwards (Some BOTTOM_TO_TOP) = true <-> py p1 < py p2)
  /\ (backwards (Some LEFT_TO_RIGHT) = true <-> px p2 < px p1)
  /\ (backwards (Some RIGHT_TO_LEFT) = true <-> px p1 < px p2).
Proof.
  intros backwards. subst backwards. cbv beta.
  repeat split; intros H;
    try (apply isLineGoingBackwards_iff in H; cbn in H; lra);
    apply isLineGoingBackwards_iff; cbn; lra.
Qed.

Lemma isPointUnimportant_at_ends (points : list Point) :
  isPointUnimportant points 0 = false
  /\ isPointUnimportant points (Z.of_nat (List.length points) - 1) = false.
Proof.
  split; unfold isPointUnimportant.
  - rewrite (item_negative points (0 - 1)) by lia.
    now destruct (item points (0 + 1)).
  - replace (Z.of_nat (List.length points) - 1 + 1)%Z
      with (Z.of_nat (List.length points)) by lia.
    rewrite item_of_nat.
    now rewrite (proj2 (nth_error_None points (List.length points)) (le_n _)).
Qed.

(** In a path that does not go backwards the first and the last point
    get the control points of the layout: 20 along the flow for the
    outgoing one, 20 against it for the incoming one. *)
Theorem forward_path_ends_follow_layout (points : list Point)
  (layout : LayoutOptions) (data : list PathPointData) :
  doesPathGoBackwards points layout = false ->
  createPointData points layout = Ok data ->
  let flow := getLayoutVector layout in
  let curved p :=
    mkPathPointData
      p
      (mkPoint (px p - 20 * Vector.x flow) (py p - 20 * Vector.y flow))
      (mkPoint (px p + 20 * Vector.x flow) (py p + 20 * Vector.y flow)) in
  (forall p, nth_error points 0 = Some p -> nth_error data 0 = Some (curved p))
  /\ (forall p, nth_error points (List.length points - 1) = Some p ->
        nth_error data (List.length points - 1) = Some (curved p)).
Proof.
  intros Hfwd Hdata flow curved.
  assert (Hcurved : forall p, getLayoutCurvedControlPoints p layout = curved p).
  { intros p. unfold getLayoutCurvedControlPoints, curved,
      createNewPointOffsetBy, Vector.invert, Vector.multiplyScalar,
      LAYOUT_CURVE_FORCE_PX.
    fold flow. cbn [Vector.x Vector.y]. f_equal; f_equal; ring. }
  assert (Hend : forall i p,
             nth_error points i = Some p ->
             isPointUnimportant points (Z.of_nat i) = false ->
             nth_error data i = Some (curved p)).
  { intros i p Hp Himp.
    assert (Hi : (i < List.length points)%nat).
    { apply nth_error_Some. congruence. }
    destruct (createPointData_nth points layout data i Hdata Hi)
      as [entry [He Hf]].
    rewrite Hfwd, Himp, item_of_nat, Hp in Hf. cbn [defined bind] in Hf.
    inversion Hf as [Hentry]. now rewrite He, <- Hentry, Hcurved. }
  destruct (isPointUnimportant_at_ends points) as [Hfirst Hlast].
  split.
  - intros p Hp. now apply Hend.
  - intros p Hp. apply Hend; [exact Hp|].
    assert (Hpos : (0 < List.length points)%nat).
    { destruct points; [discriminate | simpl; lia]. }
    replace (Z.of_nat (List.length points - 1))
      with (Z.of_nat (List.length points) - 1)%Z by lia.
    exact Hlast.
Qed.

(** A straight path of two points, left to right. *)
Lemma forward_path_ends_follow_layout_witness :
  exists data,
    createPointData [mkPoint 0 0; mkPoint 100 0] (mkLayout (Some LEFT_TO_RIGHT))
    = Ok data
    /\ nth_error data 0
       = Some (mkPathPointData (mkPoint 0 0)
                               (mkPoint (0 - 20 * 1) (0 - 20 * 0))
                               (mkPoint (0 + 20 * 1) (0 + 20 * 0))).
Proof.
  destruct (createPointData_Ok [mkPoint 0 0; mkPoint 100 0]
                               (mkLayout (Some LEFT_TO_RIGHT)))
    as [data [Hdata _]].
  exists data. split; [exact Hdata|].
  refine (proj1 (forward_path_ends_follow_layout _ _ data _ Hdata) _ eq_refl).
  unfold doesPathGoBackwards, doesPathGoBackwards_loop, isLineGoingBackwards,
    createVectorBetweenPoints, getLayoutVector.
  cbn [rankDirection px py Vector.x Vector.y].
  rewrite (proj2 (Rltb_false_iff ((100 - 0) * 1) 0)) by lra.
  rewrite (proj2 (Rltb_false_iff ((0 - 0) * 0) 0)) by lra.
  reflexivity.
Defined.

(** * Further properties of the paths *)

(** The pinned array: the two connectors for an empty list, the input
    connector alone for a single waypoint, and otherwise the list with its
    first and last point replaced. *)
Lemma pinEndpoints_shape (points : list Point) (srcOutput destInput : Point) :
  pinEndpoints points srcOutput destInput
  = map Some match points with
             | [] => [srcOutput; destInput]
             | [_] => [destInput]
             | _ :: rest => srcOutput :: removelast rest ++ [destInput]
             end.
Proof.
  unfold pinEndpoints. destruct points as [|a rest]; [reflexivity|].
  rewrite length_map. cbn [List.length Nat.eqb].
  pose proof (store_map_Some (a :: rest) 0 srcOutput) as H0.
  change (Z.of_nat 0) with 0%Z in H0. rewrite H0 by (simpl; lia). clear H0.
  cbn [firstn skipn app]. rewrite length_map. cbn [List.length].
  replace (Z.of_nat (S (List.length rest)) - 1)%Z
    with (Z.of_nat (List.length rest)) by lia.
  rewrite store_map_Some by (simpl; lia). f_equal.
  destruct rest as [|b rest]; [reflexivity|].
  cbn [List.length firstn skipn].
  rewrite skipn_all. rewrite (removelast_firstn_len (b :: rest)).
  reflexivity.
Qed.

Lemma pinEndpoints_again (points : list Point) (srcOutput destInput : Point) :
  let pinned :=
    match points with
    | [] => [srcOutput; destInput]
    | [_] => [destInput]
    | _ :: rest => srcOutput :: removelast rest ++ [destInput]
    end in
  pinEndpoints pinned srcOutput destInput = map Some pinned.
Proof.
  intros pinned. rewrite pinEndpoints_shape. f_equal. subst pinned.
  destruct points as [|a [|b rest]]; try reflexivity.
  set (mid := removelast (b :: rest)).
  destruct mid as [|m mid'] eqn:Emid; [reflexivity|].
  change (srcOutput :: (m :: mid') ++ [destInput])
    with (srcOutput :: (m :: mid' ++ [destInput])).
  cbv iota. f_equal.
  change (m :: mid' ++ [destInput]) with ((m :: mid') ++ [destInput]).
  now rewrite removelast_last.
Qed.

(** [curvedPath] overwrites the first and the last point of the edge by
    the output connector of the source and the input connector of the
    destination and keeps every waypoint in between; an empty list
    becomes the two connectors, a single waypoint becomes the input
    connector alone. *)
Theorem curvedPath_pins_ends_keeps_waypoints (fractionToString : R -> string)
  (edge : Edge) (layout : option LayoutOptions) (sx sy dx dy : R) :
  placedAt (src edge) sx sy ->
  placedAt (dest edge) dx dy ->
  let layout' :=
    match layout with
    | Some l => l
    | None => mkLayout (Some LEFT_TO_RIGHT)
    end in
  exists srcConnectors destConnectors path,
    getConnectorPointsForNode (src edge) layout' = Ok srcConnectors
    /\ getConnectorPointsForNode (dest edge) layout' = Ok destConnectors
    /\ curvedPath fractionToString edge layout
       = Ok (mkEdge (src edge) (dest edge)
                    match points edge with
                    | [] => [output srcConnectors; input destConnectors]
                    | [_] => [input destConnectors]
                    | _ :: rest =>
                        output srcConnectors
                          :: removelast rest ++ [input destConnectors]
                    end,
             path).
Proof.
  intros Hsrc Hdest layout'.
  destruct (getConnectorPointsForNode_Ok _ layout' _ _ Hsrc) as [cs Hcs].
  destruct (getConnectorPointsForNode_Ok _ layout' _ _ Hdest) as [cd Hcd].
  unfold curvedPath. fold layout'. rewrite Hcs, Hcd. cbn [bind].
  rewrite pinEndpoints_shape, dense_map_Some. cbn [bind].
  match goal with |- context [createPointData ?l layout'] =>
    destruct (createPointData_Ok l layout') as [data [Hdata _]] end.
  rewrite Hdata. cbn [bind].
  exists cs, cd. eexists. split; [reflexivity|]. split; reflexivity.
Qed.

(** An edge with three waypoints between two placed nodes: the middle
    one stays. *)
Lemma curvedPath_pins_ends_keeps_waypoints_witness :
  let a := mkNode "a" (Some 50) (Some 25) 100 50 in
  let b := mkNode "b" (Some 250) (Some 25) 100 50 in
  let e := mkEdge a b [mkPoint 90 30; mkPoint 150 60; mkPoint 210 30] in
  exists srcConnectors destConnectors path,
    getConnectorPointsForNode a (mkLayout (Some LEFT_TO_RIGHT)) = Ok srcConnectors
    /\ getConnectorPointsForNode b (mkLayout (Some LEFT_TO_RIGHT))
       = Ok destConnectors
    /\ curvedPath (fun _ => ""%string) e None
       = Ok (mkEdge a b [output srcConnectors; mkPoint 150 60;
                         input destConnectors],
             path).
Proof.
  intros a b e.
  apply (curvedPath_pins_ends_keeps_waypoints (fun _ => ""%string) e None
           50 25 250 25); split; reflexivity.
Defined.

(** Calling [curvedPath] again on the edge it has written to changes
    nothing: the same points and the same path come back. *)
Theorem curvedPath_twice (fractionToString : R -> string) (edge edge' : Edge)
  (layout : option LayoutOptions) (path : string) :
  curvedPath fractionToString edge layout = Ok (edge', path) ->
  curvedPath fractionToString edge' layout = Ok (edge', path).
Proof.
  unfold curvedPath.
  set (layout' := match layout with Some l => l | None => _ end).
  intros H.
  destruct (getConnectorPointsForNode (src edge) layout') as [cs| |] eqn:Hcs;
    try discriminate.
  destruct (getConnectorPointsForNode (dest edge) layout') as [cd| |] eqn:Hcd;
    try discriminate.
  cbn [bind] in H. rewrite pinEndpoints_shape, dense_map_Some in H.
  cbn [bind] in H.
  match type of H with context [createPointData ?l layout'] =>
    set (pinned := l) in H end.
  destruct (createPointData pinned layout') as [data| |] eqn:Hdata;
    try discriminate.
  cbn [bind] in H. inversion H; subst edge' path; clear H.
  cbn [src dest points]. rewrite Hcs, Hcd. cbn [bind].
  subst pinned. rewrite pinEndpoints_again, dense_map_Some. cbn [bind].
  rewrite Hdata. reflexivity.
Qed.

(** An edge without waypoints, drawn twice. *)
Lemma curvedPath_twice_witness :
  let a := mkNode "a" (Some 50) (Some 25) 100 50 in
  let b := mkNode "b" (Some 250) (Some 25) 100 50 in
  exists edge' path,
    curvedPath (fun _ => ""%string) (mkEdge a b []) None = Ok (edge', path)
    /\ curvedPath (fun _ => ""%string) edge' None = Ok (edge', path).
Proof.
  intros a b.
  destruct (curvedPath_Ok (fun _ => ""%string) (mkEdge a b []) None 50 25 250 25)
    as [pinned [path [Hrun _]]]; try (split; reflexivity).
  exists (mkEdge a b pinned), path. split; [exact Hrun|].
  exact (curvedPath_twice _ _ _ _ _ Hrun).
Defined.

Lemma createPathFromPointData_short (fractionToString : R -> string)
  (data : list PathPointData) :
  (List.length data < 2)%nat ->
  createPathFromPointData fractionToString data = ""%string.
Proof.
  destruct data as [|d0 [|d1 ds]]; simpl; intros H; try reflexivity; lia.
Qed.

Lemma createPathFromPointData_long (fractionToString : R -> string)
  (data : list PathPointData) :
  (2 <= List.length data)%nat ->
  exists rest,
    createPathFromPointData fractionToString data = ("M " ++ rest)%string.
Proof.
  destruct data as [|d0 [|d1 ds]]; simpl; intros H; try lia.
  unfold createPathFromPointData.
  cbn [createPathFromPointData_loop Nat.eqb app].
  set (tail := createPathFromPointData_loop fractionToString 1 (d1 :: ds)).
  set (seg := cubicBezierTo fractionToString (point d1)
                            (outgoingControlPoint d0) (incomingControlPoint d1)).
  change (String.concat " " (moveTo fractionToString (point d0) :: seg :: tail))
    with (moveTo fractionToString (point d0)
            ++ " " ++ String.concat " " (seg :: tail))%string.
  unfold moveTo. eexists. cbn [String.append]. reflexivity.
Qed.

(** Between two placed nodes the path is the empty string exactly for an
    edge with a single waypoint; for every other edge it starts with a
    move-to command. *)
Theorem curvedPath_empty_iff_single_waypoint (fractionToString : R -> string)
  (edge : Edge) (layout : option LayoutOptions) (sx sy dx dy : R) :
  placedAt (src edge) sx sy ->
  placedAt (dest edge) dx dy ->
  exists edge' path,
    curvedPath fractionToString edge layout = Ok (edge', path)
    /\ (List.length (points edge) = 1%nat -> path = ""%string)
    /\ (List.length (points edge) <> 1%nat ->
        exists rest, path = ("M " ++ rest)%string).
Proof.
  intros Hsrc Hdest.
  destruct (curvedPath_Ok fractionToString edge layout sx sy dx dy Hsrc Hdest)
    as [pinned [path [Hrun Hlen]]].
  exists (mkEdge (src edge) (dest edge) pinned), path.
  split; [exact Hrun|].
  unfold curvedPath in Hrun.
  set (layout' := match layout with Some l => l | None => _ end) in Hrun.
  destruct (getConnectorPointsForNode (src edge) layout'); try discriminate.
  destruct (getConnectorPointsForNode (dest edge) layout'); try discriminate.
  cbn [bind] in Hrun.
  destruct (dense _) as [pts| |]; try discriminate. cbn [bind] in Hrun.
  destruct (createPointData_Ok pts layout') as [data [Hdata [Hdlen _]]].
  rewrite Hdata in Hrun. cbn [bind] in Hrun.
  inversion Hrun; subst pts; clear Hrun.
  rewrite Hlen in Hdlen. split.
  - intros Hone. rewrite Hone in Hdlen. cbn in Hdlen.
    apply createPathFromPointData_short. lia.
  - intros Hne. apply createPathFromPointData_long.
    destruct (List.length (points edge)) as [|[|n]]; cbn in Hdlen; lia.
Qed.

(** An edge with one waypoint between two placed nodes. *)
Lemma curvedPath_empty_iff_single_waypoint_witness :
  let a := mkNode "a" (Some 50) (Some 25) 100 50 in
  let b := mkNode "b" (Some 250) (Some 25) 100 50 in
  exists edge' path,
    curvedPath (fun _ => ""%string) (mkEdge a b [mkPoint 150 25]) None
    = Ok (edge', path)
    /\ path = ""%string.
Proof.
  intros a b.
  destruct (curvedPath_empty_iff_single_waypoint
              (fun _ => ""%string) (mkEdge a b [mkPoint 150 25]) None
              50 25 250 25) as [edge' [path [Hrun [Hone _]]]];
    try (split; reflexivity).
  exists edge', path. split; [exact Hrun | now apply Hone].
Defined.

(** [trianglePoints] either returns a string, and then both coordinates of
    the destination are set and different from 0, or throws the range
    error, and then a coordinate of the destination is unset or is 0.
    Nothing else happens, and the source node and the waypoints of the
    edge are not looked at. *)
Theorem trianglePoints_outcome (fractionToString : R -> string) (edge : Edge)
  (layout : LayoutOptions) :
  ((exists s, trianglePoints fractionToString edge layout = Ok s)
   /\ exists x y,
        nx (dest edge) = Some x /\ ny (dest edge) = Some y /\ x <> 0 /\ y <> 0)
  \/ (trianglePoints fractionToString edge layout
      = Throw (RangeError "Edge point should not be a nullish value.")
      /\ (nx (dest edge) = None \/ nx (dest edge) = Some 0
          \/ ny (dest edge) = None \/ ny (dest edge) = Some 0)).
Proof.
  unfold trianglePoints.
  destruct (nx (dest edge)) as [x|]; [|right; split; [reflexivity | tauto]].
  destruct (ny (dest edge)) as [y|]; cbn [not_ orb].
  - destruct (Reqb x 0) eqn:Ex; cbn [orb].
    + apply Reqb_true_iff in Ex. subst x. right. split; [reflexivity | tauto].
    + destruct (Reqb y 0) eqn:Ey.
      * apply Reqb_true_iff in Ey. subst y. right. split; [reflexivity | tauto].
      * apply Reqb_false_iff in Ex, Ey. left.
        split; [eexists; reflexivity | now exists x, y].
  - right. rewrite orb_true_r. split; [reflexivity | tauto].
Qed.

(** The arrowhead has three points, and with a rank direction set its
    tip is the input connector of the destination, the point where
    [curvedPath] ends the edge.  Without a rank direction the two
    disagree: the tip is half the height below the centre (the
    bottom-to-top case) and the connector half the height above it (the
    top-to-bottom case).  The two points at the back are 10 apart. *)
Theorem arrow_tip_and_input_connector (fractionToString : R -> string)
  (edge : Edge) (layout : LayoutOptions) (x y : R) :
  nx (dest edge) = Some x ->
  ny (dest edge) = Some y ->
  x <> 0 -> y <> 0 ->
  let coord p :=
    (numberToString fractionToString (px p) ++ ","
       ++ numberToString fractionToString (py p))%string in
  exists tip back1 back2 connectors,
    trianglePoints fractionToString edge layout
    = Ok (coord tip ++ " " ++ coord back1 ++ " " ++ coord back2)%string
    /\ getConnectorPointsForNode (dest edge) layout = Ok connectors
    /\ match rankDirection layout with
       | Some _ => tip = input connectors
       | None =>
           tip = mkPoint x (y + height (dest edge) / 2)
           /\ input connectors = mkPoint x (y - height (dest edge) / 2)
       end
    /\ (px back1 - px back2) * (px back1 - px back2)
       + (py back1 - py back2) * (py back1 - py back2) = 100.
Proof.
  intros Hx Hy Hx0 Hy0 coord.
  unfold trianglePoints, getConnectorPointsForNode. rewrite Hx, Hy.
  cbn [not_ orb nonNull bind].
  rewrite (proj2 (Reqb_false_iff x 0) Hx0), (proj2 (Reqb_false_iff y 0) Hy0).
  cbn [orb].
  destruct (rankDirection layout) as [[| | |]|]; cbn [px py];
    do 4 eexists;
    (split; [cbn [map String.concat]; fold coord; reflexivity|]);
    (split; [reflexivity|]); cbn [input px py];
    (split; [try split; reflexivity | cbn [px py]; field]).
Qed.

(** A destination at (200, 100), 80 wide and 40 high, left to right. *)
Lemma arrow_tip_and_input_connector_witness :
  let b := mkNode "b" (Some 200) (Some 100) 80 40 in
  let layout := mkLayout (Some LEFT_TO_RIGHT) in
  exists tip connectors,
    getConnectorPointsForNode b layout = Ok connectors
    /\ tip = input connectors
    /\ tip = mkPoint (200 - 80 / 2) 100.
Proof.
  intros b layout.
  destruct (arrow_tip_and_input_connector
              (fun _ => ""%string) (mkEdge b b []) layout 200 100)
    as [tip [b1 [b2 [connectors [_ [Hc [Htip _]]]]]]];
    try reflexivity; try (cbn; lra).
  exists tip, connectors. split; [exact Hc|]. split; [exact Htip|].
  cbn in Htip. rewrite Htip. cbn in Hc. inversion Hc. reflexivity.
Defined.

(** * Further properties of the camera *)

(** The easing curve starts at 0, ends at 1, stays between 0 and 1 and
    never decreases on the way, and is symmetric about the middle. *)
Theorem easeInAndOut_curve :
  easeInAndOut 0 = 0
  /\ easeInAndOut 1 = 1
  /\ (forall t, 0 <= t <= 1 -> 0 <= easeInAndOut t <= 1)
  /\ (forall s t, 0 <= s -> s <= t -> t <= 1 -> easeInAndOut s <= easeInAndOut t)
  /\ (forall t, easeInAndOut (1 - t) = 1 - easeInAndOut t).
Proof.
  unfold easeInAndOut. split; [ring|]. split; [ring|]. split; [|split].
  - intros t [H0 H1]. split.
    + assert (0 <= t * t * (3 - 2 * t)) by (apply Rmult_le_pos; nra). nra.
    + assert (0 <= (1 - t) * (1 - t) * (1 + 2 * t)) by (apply Rmult_le_pos; nra).
      nra.
  - intros s t Hs Hst Ht.
    assert (H : 0 <= (t - s) * (3 * (t + s) - 2 * (t * t + t * s + s * s))).
    { apply Rmult_le_pos; [lra|]. nra. }
    nra.
  - intros t. ring.
Qed.

(** A quarter and three quarters of the way. *)
Lemma easeInAndOut_curve_witness :
  0 <= easeInAndOut (/ 4) <= 1 /\ easeInAndOut (/ 4) <= easeInAndOut (3 / 4).
Proof.
  destruct easeInAndOut_curve as [_ [_ [Hrange [Hmono _]]]].
  split; [apply Hrange; lra | apply Hmono; lra].
Defined.

Lemma last_frame_progress (d now t : R) :
  0 < d -> now + d <= t ->
  divide (t - now) d = Ok ((t - now) / d)
  /\ easeInAndOut (Rmin ((t - now) / d) 1) = 1
  /\ Rltb (t - now) d = false.
Proof.
  intros Hd Ht. split; [apply divide_Ok; lra|]. split.
  - assert (Hratio : 1 <= (t - now) / d).
    { unfold Rdiv. pose proof (Rinv_0_lt_compat d Hd).
      assert (d * / d = 1) by (apply Rinv_r; lra). nra. }
    rewrite Rmin_right by exact Hratio. apply easeInAndOut_1.
  - apply Rltb_false_iff. lra.
Qed.

Lemma early_frame_progress (d now t : R) :
  t < now + d ->
  d <> 0 ->
  divide (t - now) d = Ok ((t - now) / d) /\ Rltb (t - now) d = true.
Proof.
  intros Ht Hd. split; [now apply divide_Ok | apply Rltb_true_iff; lra].
Qed.

(** Each of the three smooth moves, whatever is running when it is
    called: the frame that comes once the duration is over asks the
    engine for exactly the target and requests no further frame, so the
    animation is over; a frame that comes earlier requests the next one. *)
Theorem last_frame_reaches_target (c : GraphCamera) (target : Point)
  (zoomLevel : R) (duration : option R) (now t : R) :
  0 < orDefault duration 250 ->
  let d := orDefault duration 250 in
  (now + d <= t ->
   (exists c',
      frameFn PanChannel t (smoothPan c target duration now) = Ok c'
      /\ panZoom c' = SvgPanZoom.pan (panZoom c) target
      /\ isActive (stopSmoothPanFn c') = false)
   /\ (exists c',
         frameFn ZoomChannel t (smoothZoom c zoomLevel duration now) = Ok c'
         /\ panZoom c' = SvgPanZoom.zoom (panZoom c) zoomLevel
         /\ isActive (stopSmoothZoomFn c') = false)
   /\ (exists c',
         frameFn PanAndZoomChannel t
                 (smoothPanAndZoom c target zoomLevel duration now) = Ok c'
         /\ panZoom c'
            = SvgPanZoom.zoom (SvgPanZoom.pan (panZoom c) target) zoomLevel
         /\ isActive (stopSmoothPanAndZoomFn c') = false))
  /\ (t < now + d ->
      (exists c',
         frameFn PanChannel t (smoothPan c target duration now) = Ok c'
         /\ isActive (stopSmoothPanFn c') = true)
      /\ (exists c',
            frameFn ZoomChannel t (smoothZoom c zoomLevel duration now) = Ok c'
            /\ isActive (stopSmoothZoomFn c') = true)
      /\ (exists c',
            frameFn PanAndZoomChannel t
                    (smoothPanAndZoom c target zoomLevel duration now) = Ok c'
            /\ isActive (stopSmoothPanAndZoomFn c') = true)).
Proof.
  intros Hd d. fold d in Hd.
  assert (Hpoint : forall sx sy : R,
             mkPoint (sx + 1 * (px target - sx)) (sy + 1 * (py target - sy))
             = target).
  { intros sx sy. destruct target as [tx ty]. cbn [px py]. f_equal; ring. }
  split.
  - intros Ht.
    destruct (last_frame_progress d now t Hd Ht) as [Hdiv [Hease Hlt]].
    split; [|split].
    + unfold frameFn, smoothPan, animateOver. fold d.
      cbn [stopFnOf stopSmoothPanFn set_lastHandle set_stopSmoothPanFn handle
           start durationMs callback panZoom].
      rewrite Hdiv. cbn [bind]. rewrite Hease, Hlt.
      eexists. split; [reflexivity|]. split; [|reflexivity].
      cbn. now rewrite Hpoint.
    + apply (smoothZoom_last_frame c zoomLevel duration now t); assumption.
    + unfold frameFn, smoothPanAndZoom, animateOver. fold d.
      cbn [stopFnOf stopSmoothPanAndZoomFn set_lastHandle
           set_stopSmoothPanAndZoomFn handle start durationMs callback panZoom].
      rewrite Hdiv. cbn [bind]. rewrite Hease, Hlt.
      eexists. split; [reflexivity|]. split; [|reflexivity].
      cbn. rewrite Hpoint. f_equal. unfold SvgPanZoom.getZoom. ring.
  - intros Ht.
    destruct (early_frame_progress d now t Ht) as [Hdiv Hlt]; [lra|].
    split; [|split].
    + unfold frameFn, smoothPan, animateOver. fold d.
      cbn [stopFnOf stopSmoothPanFn set_lastHandle set_stopSmoothPanFn handle
           start durationMs callback panZoom].
      rewrite Hdiv. cbn [bind]. rewrite Hlt. eexists. split; reflexivity.
    + unfold frameFn, smoothZoom, animateOver. fold d.
      cbn [stopFnOf stopSmoothZoomFn set_lastHandle set_stopSmoothZoomFn handle
           start durationMs callback panZoom].
      rewrite Hdiv. cbn [bind]. rewrite Hlt. eexists. split; reflexivity.
    + unfold frameFn, smoothPanAndZoom, animateOver. fold d.
      cbn [stopFnOf stopSmoothPanAndZoomFn set_lastHandle
           set_stopSmoothPanAndZoomFn handle start durationMs callback panZoom].
      rewrite Hdiv. cbn [bind]. rewrite Hlt. eexists. split; reflexivity.
Qed.

(** A smooth pan of the default 250 ms started at time 1000, and its
    frame at time 1300. *)
Lemma last_frame_reaches_target_witness :
  let el := mkSVGElement true (mkRect 0 0 600 800) 800 600
                         (mkViewBox 0 0 100 100) in
  let opts := mkOptions false false true ZOOM_SENSITIVITY None true 0.1 2 false
                        beforePanHook in
  let c := mkGraphCamera el (SvgPanZoom.create el opts) None None None None
                         false 0 in
  exists c',
    frameFn PanChannel 1300 (smoothPan c (mkPoint 40 30) None 1000) = Ok c'
    /\ panZoom c' = SvgPanZoom.pan (panZoom c) (mkPoint 40 30)
    /\ isActive (stopSmoothPanFn c') = false.
Proof.
  intros el opts c.
  assert (Hd : 0 < orDefault None 250) by (cbn; lra).
  assert (Ht : 1000 + orDefault None 250 <= 1300) by (cbn; lra).
  exact (proj1 (proj1 (last_frame_reaches_target
                         c (mkPoint 40 30) 1 None 1000 1300 Hd) Ht)).
Defined.

(** From the window to the world and back: with a zoom other than 0,
    [domToWorldSpace] returns the one point of the world that the zoom,
    the pan and the position of the canvas in the window carry to the
    given point of the window. *)
Theorem domToWorldSpace_inverts_the_view (c : GraphCamera) :
  getZoom c <> 0 ->
  let bounds := boundingClientRect (svgEl c) in
  let toWindow (world : Point) :=
    mkPoint (px world * getZoom c + px (getPan c) + left bounds)
            (py world * getZoom c + py (getPan c) + top bounds) in
  (forall world, domToWorldSpace c (toWindow world) = Ok world)
  /\ (forall p, exists world,
        domToWorldSpace c p = Ok world /\ toWindow world = p).
Proof.
  intros Hz bounds toWindow.
  assert (Hrun : forall p,
             domToWorldSpace c p
             = Ok (mkPoint ((px p - left bounds - px (getPan c)) / getZoom c)
                           ((py p - top bounds - py (getPan c)) / getZoom c))).
  { intros p. unfold domToWorldSpace, cameraToWorldSpace, domToCameraSpace.
    cbn [px py]. fold (getZoom c). fold (getPan c). fold bounds.
    rewrite !divide_Ok by exact Hz. reflexivity. }
  split.
  - intros [wx wy]. rewrite Hrun. unfold toWindow. cbn [px py].
    f_equal. f_equal; field; exact Hz.
  - intros [x y]. eexists. split; [apply Hrun|].
    unfold toWindow. cbn [px py]. f_equal; field; exact Hz.
Qed.

(** A camera zoomed out to one half, panned by (10, 20), on a canvas
    whose corner is at (100, 50) in the window. *)
Lemma domToWorldSpace_inverts_the_view_witness :
  let el := mkSVGElement true (mkRect 50 100 650 900) 800 600
                         (mkViewBox 0 0 100 100) in
  let opts := mkOptions false false false ZOOM_SENSITIVITY None true 0.1 2 false
                        beforePanHook in
  let pz := SvgPanZoom.mkInstance opts (mkPoint 10 20) (/ 2)
                                  (mkSizes 800 600 1 (mkViewBox 0 0 100 100))
                                  false in
  let c := mkGraphCamera el pz None None None None false 0 in
  domToWorldSpace c (mkPoint (30 * / 2 + 10 + 100) (40 * / 2 + 20 + 50))
  = Ok (mkPoint 30 40).
Proof.
  intros el opts pz c.
  assert (Hz : getZoom c <> 0) by (cbn; lra).
  exact (proj1 (domToWorldSpace_inverts_the_view c Hz) (mkPoint 30 40)).
Defined.

(** The target of a smooth reset.  With a graph that has a width and a
    height, [smoothReset] cancels the pan and the zoom animation and
    starts the combined one, whose last frame asks for a zoom that is 1
    when the graph fits with room to spare and 0.96 times the fitting
    zoom otherwise, and for the pan that puts the centre of the graph in
    the centre of the canvas at that zoom.  On a canvas of positive size
    the graph at that zoom is never larger than the canvas. *)
Theorem smoothReset_centres_and_fits (c : GraphCamera) (duration now : R) :
  let el := svgEl c in
  let w := measuredWidth el in
  let h := measuredHeight el in
  let box := measuredBBox el in
  vb_width box <> 0 ->
  vb_height box <> 0 ->
  let fitting := Rmin (w / vb_width box) (h / vb_height box) in
  let newZoom := if Rgtb fitting 1 then 1 else fitting * (1 - 0.04) in
  exists c' a newPan,
    smoothReset c duration now = Ok c'
    /\ stopSmoothPanAndZoomFn c' = Some a
    /\ start a = now /\ durationMs a = duration /\ isActive (Some a) = true
    /\ isActive (stopSmoothPanFn c') = false
    /\ isActive (stopSmoothZoomFn c') = false
    /\ (forall pz,
          callback a 1 pz = SvgPanZoom.zoom (SvgPanZoom.pan pz newPan) newZoom)
    /\ (vb_x box + vb_width box / 2) * newZoom + px newPan = w / 2
    /\ (vb_y box + vb_height box / 2) * newZoom + py newPan = h / 2
    /\ (0 < vb_width box -> 0 < vb_height box -> 0 <= w -> 0 <= h ->
        0 <= newZoom <= 1
        /\ vb_width box * newZoom <= w
        /\ vb_height box * newZoom <= h).
Proof.
  intros el w h box Hw Hh fitting newZoom.
  unfold smoothReset, smoothCenterAndFitWithoutZoomingIn.
  cbn [panZoom set_panZoom set_stopSmoothZoomFn set_stopSmoothPanFn svgEl
       SvgPanZoom.getSizes SvgPanZoom.resize SvgPanZoom.updateBBox
       SvgPanZoom.sizes s_width s_height viewBox].
  fold el. fold w. fold h. fold box.
  rewrite (divide_Ok w _ Hw), (divide_Ok h _ Hh). cbn [bind].
  fold fitting. unfold FIT_PADDING_PERCENT. fold newZoom.
  set (newPan := mkPoint _ _).
  eexists. eexists. exists newPan. split; [reflexivity|].
  unfold smoothPanAndZoom, animateOver.
  cbn [stopSmoothPanAndZoomFn set_lastHandle set_stopSmoothPanAndZoomFn
       stopSmoothPanFn stopSmoothZoomFn set_panZoom orDefault].
  split; [reflexivity|]. cbn [start durationMs handle isActive callback].
  split; [reflexivity|]. split; [reflexivity|]. split; [reflexivity|].
  split; [apply callStopFn_inactive|]. split; [apply callStopFn_inactive|].
  split.
  { intros pz.
    assert (Hp : forall sx sy : R,
               mkPoint (sx + 1 * (px newPan - sx)) (sy + 1 * (py newPan - sy))
               = newPan).
    { intros sx sy. subst newPan. cbn [px py]. f_equal; ring. }
    rewrite Hp. f_equal. ring. }
  subst newPan. cbn [px py].
  split; [generalize newZoom; intros z; lra|].
  split; [generalize newZoom; intros z; lra|].
  intros Hpw Hph Hpos_w Hpos_h.
  assert (Hrw : 0 <= w / vb_width box).
  { unfold Rdiv. apply Rmult_le_pos; [lra|].
    apply Rlt_le, Rinv_0_lt_compat; lra. }
  assert (Hrh : 0 <= h / vb_height box).
  { unfold Rdiv. apply Rmult_le_pos; [lra|].
    apply Rlt_le, Rinv_0_lt_compat; lra. }
  assert (Hfw : vb_width box * (w / vb_width box) = w) by (field; lra).
  assert (Hfh : vb_height box * (h / vb_height box) = h) by (field; lra).
  assert (Hf0 : 0 <= fitting) by (subst fitting; apply Rmin_glb; lra).
  assert (Hf1 : fitting <= w / vb_width box) by apply Rmin_l.
  assert (Hf2 : fitting <= h / vb_height box) by apply Rmin_r.
  subst newZoom. destruct (Rgtb fitting 1) eqn:E.
  - apply Rgtb_true_iff in E. split; [lra|]. split; nra.
  - apply Rgtb_false_iff in E. split; [lra|]. split; nra.
Qed.

(** A graph of 1600 by 300 on a canvas of 800 by 600: the fitting zoom
    is one half. *)
Lemma smoothReset_centres_and_fits_witness :
  let el := mkSVGElement true (mkRect 0 0 600 800) 800 600
                         (mkViewBox 0 0 1600 300) in
  let opts := mkOptions false false true ZOOM_SENSITIVITY None true 0.1 2 false
                        beforePanHook in
  let c := mkGraphCamera el (SvgPanZoom.create el opts) None None None None
                         false 0 in
  exists c' a,
    smoothReset c 500 0 = Ok c'
    /\ stopSmoothPanAndZoomFn c' = Some a
    /\ durationMs a = 500.
Proof.
  intros el opts c.
  destruct (smoothReset_centres_and_fits c 500 0)
    as [c' [a [newPan [Hrun [Ha [_ [Hd _]]]]]]]; try (cbn; lra).
  exists c', a. split; [exact Hrun|]. split; [exact Ha | exact Hd].
Defined.

Lemma getVisibleRegionInWorldSpace_Ok (c : GraphCamera) :
  getZoom c <> 0 ->
  getVisibleRegionInWorldSpace c
  = Ok (mkRect ((0 - py (getPan c)) / getZoom c)
               ((0 - px (getPan c)) / getZoom c)
               ((s_height (SvgPanZoom.getSizes (panZoom c)) - py (getPan c))
                / getZoom c)
               ((s_width (SvgPanZoom.getSizes (panZoom c)) - px (getPan c))
                / getZoom c)).
Proof.
  intros Hz. unfold getVisibleRegionInWorldSpace, cameraToWorldSpace.
  fold (getZoom c). fold (getPan c). cbn [px py].
  rewrite !divide_Ok by exact Hz. reflexivity.
Qed.

(** Panning a region into view.  The region, grown by the padding, is
    compared with the part of the world the canvas shows.  When it lies
    inside, nothing moves and no animation starts.  When it does not, a
    smooth pan of 250 ms starts whose target puts the right edge of the
    grown region on the right edge of the canvas if it stuck out to the
    right, else its left edge on the left edge if it stuck out to the
    left, else leaves the horizontal pan alone; and in the same way the
    bottom edge before the top edge. *)
Theorem panIntoView_aligns_the_edge_that_sticks_out (c : GraphCamera)
  (region : Rect) (padding : option R) (now : R) :
  getZoom c <> 0 ->
  let z := getZoom c in
  let w := measuredWidth (svgEl c) in
  let h := measuredHeight (svgEl c) in
  let visible :=
    mkRect ((0 - py (getPan c)) / z) ((0 - px (getPan c)) / z)
           ((h - py (getPan c)) / z) ((w - px (getPan c)) / z) in
  let r := expandRectBy region (orDefault padding PAN_INTO_VIEW_PADDING) in
  let inside :=
    top visible <= top r /\ bottom r <= bottom visible
    /\ left visible <= left r /\ right r <= right visible in
  let targetX :=
    if Rgtb (right r) (right visible) then w - right r * z
    else if Rltb (left r) (left visible) then 0 - left r * z
         else px (getPan c) in
  let targetY :=
    if Rgtb (bottom r) (bottom visible) then h - bottom r * z
    else if Rltb (top r) (top visible) then 0 - top r * z
         else py (getPan c) in
  (inside ->
   exists c',
     panIntoView c region padding now = Ok c'
     /\ getPan c' = getPan c /\ getZoom c' = getZoom c
     /\ stopSmoothPanFn c' = stopSmoothPanFn c
     /\ lastHandle c' = lastHandle c)
  /\ (~ inside ->
      exists c' a,
        panIntoView c region padding now = Ok c'
        /\ stopSmoothPanFn c' = Some a
        /\ isActive (Some a) = true
        /\ start a = now /\ durationMs a = 250
        /\ forall pz,
             callback a 1 pz = SvgPanZoom.pan pz (mkPoint targetX targetY)).
Proof.
  intros Hz z w h visible r inside targetX targetY.
  unfold panIntoView.
  set (c1 := set_panZoom (set_panZoom c _) _).
  assert (Hz1 : getZoom c1 <> 0) by exact Hz.
  rewrite (getVisibleRegionInWorldSpace_Ok c1 Hz1). cbn [bind].
  change (getPan c1) with (getPan c). change (getZoom c1) with z.
  change (s_height (SvgPanZoom.getSizes (panZoom c1))) with h.
  change (s_width (SvgPanZoom.getSizes (panZoom c1))) with w.
  fold visible. fold r.
  change (SvgPanZoom.getZoom (panZoom c1)) with z.
  change (SvgPanZoom.getPan (panZoom c1)) with (getPan c).
  cbn [px py].
  subst targetX targetY inside.
  destruct (Rltb (top r) (top visible)) eqn:Et;
    destruct (Rgtb (bottom r) (bottom visible)) eqn:Eb;
    destruct (Rltb (left r) (left visible)) eqn:El;
    destruct (Rgtb (right r) (right visible)) eqn:Er;
    repeat match goal with
           | H : Rltb _ _ = true |- _ => apply Rltb_true_iff in H
           | H : Rltb _ _ = false |- _ => apply Rltb_false_iff in H
           | H : Rgtb _ _ = true |- _ => apply Rgtb_true_iff in H
           | H : Rgtb _ _ = false |- _ => apply Rgtb_false_iff in H
           end;
    (split;
     [ intros [H1 [H2 [H3 H4]]]; try lra;
       rewrite (proj2 (Reqb_true_iff 0 0)) by reflexivity; cbn [andb];
       exists c1; repeat split; reflexivity
     | intros Hout;
       first
       [ solve [exfalso; apply Hout; repeat split; lra]
       | match goal with
       | |- context [Reqb ?x 0 && Reqb ?y 0] =>
           assert (Hnz : Reqb x 0 && Reqb y 0 = false)
             by (apply andb_false_iff;
                 first [ left; apply Reqb_false_iff; lra
                       | right; apply Reqb_false_iff; lra ]);
           rewrite Hnz
       end;
       eexists; eexists; split; [reflexivity|];
       unfold smoothPan, animateOver;
       cbn [stopSmoothPanFn set_lastHandle set_stopSmoothPanFn orDefault];
       split; [reflexivity|];
       cbn [isActive handle start durationMs callback];
       split; [reflexivity|]; split; [reflexivity|]; split; [reflexivity|];
       intros pz; f_equal;
       change (SvgPanZoom.getPan (panZoom c1)) with (getPan c);
       cbn [px py top left bottom right visible];
       f_equal; field; exact Hz ] ]).
Qed.

(** At zoom 1 and pan (0, 0) on a canvas of 800 by 600, a region that
    reaches from 700 to 900 horizontally. *)
Lemma panIntoView_aligns_the_edge_that_sticks_out_witness :
  let el := mkSVGElement true (mkRect 0 0 600 800) 800 600
                         (mkViewBox 0 0 100 100) in
  let opts := mkOptions false false false ZOOM_SENSITIVITY None true 0.1 2 false
                        beforePanHook in
  let pz := SvgPanZoom.mkInstance opts (mkPoint 0 0) 1
                                  (mkSizes 800 600 1 (mkViewBox 0 0 100 100))
                                  false in
  let c := mkGraphCamera el pz None None None None false 0 in
  exists c' a,
    panIntoView c (mkRect 100 700 200 900) None 0 = Ok c'
    /\ stopSmoothPanFn c' = Some a
    /\ isActive (Some a) = true.
Proof.
  intros el opts pz c.
  assert (Hz : getZoom c <> 0) by (cbn; lra).
  destruct (proj2 (panIntoView_aligns_the_edge_that_sticks_out
                     c (mkRect 100 700 200 900) None 0 Hz))
    as [c' [a [Hrun [Ha [Hact _]]]]].
  - intros [_ [_ [_ H]]]. cbn in H. unfold PAN_INTO_VIEW_PADDING in H. lra.
  - exists c', a. split; [exact Hrun|]. split; [exact Ha | exact Hact].
Defined.

(** What the constructor does.  Without a root [<g>] in the canvas it
    throws a reference error, whatever else is asked for.  With one, and
    a graph that has a width and a height, it throws a reference error
    when automatic reset is asked for without a window, and otherwise
    returns a camera that listens to resizes exactly when automatic reset
    is asked for. *)
Theorem newGraphCamera_outcome (options : CameraOptions) (userAgent : string) :
  (hasRootGroup (o_svgEl options) = false ->
   newGraphCamera options userAgent
   = Throw (ReferenceError
              "A root <g> element is needed for the camera to work."))
  /\ (hasRootGroup (o_svgEl options) = true ->
      vb_width (measuredBBox (o_svgEl options)) <> 0 ->
      vb_height (measuredBBox (o_svgEl options)) <> 0 ->
      match o_autoResetOnWindowResize options, o_windowRef options with
      | Some true, None =>
          newGraphCamera options userAgent
          = Throw (ReferenceError "windowRef is required for autoresize")
      | Some true, Some _ =>
          exists c, newGraphCamera options userAgent = Ok c
                    /\ resizeSub c = Some true
      | _, _ =>
          exists c, newGraphCamera options userAgent = Ok c
                    /\ resizeSub c = None
      end).
Proof.
  split.
  - intros H. unfold newGraphCamera. now rewrite H.
  - intros Hroot Hw Hh. unfold newGraphCamera. rewrite Hroot. cbn [negb].
    match goal with |- context [reset ?c0] =>
      destruct (reset_Ok c0 Hw Hh) as [c1 Hc1]; rewrite Hc1;
      destruct (reset_inv _ _ Hc1) as [_ [_ [_ [Hsub _]]]]
    end.
    cbn [bind]. cbn [resizeSub] in Hsub.
    destruct (o_autoResetOnWindowResize options) as [[|]|];
      destruct (o_windowRef options);
      try reflexivity; eexists; (split; [reflexivity|]);
      cbn; try reflexivity; exact Hsub.
Qed.

(** A canvas without a root group. *)
Lemma newGraphCamera_outcome_witness :
  let el := mkSVGElement false (mkRect 0 0 600 800) 800 600
                         (mkViewBox 0 0 100 100) in
  newGraphCamera (mkCameraOptions el None (Some true) None) "Mozilla/5.0"
  = Throw (ReferenceError "A root <g> element is needed for the camera to work.").
Proof.
  intros el.
  apply (proj1 (newGraphCamera_outcome
                  (mkCameraOptions el None (Some true) None) "Mozilla/5.0")).
  reflexivity.
Defined.


(** * Properties of the ids of the graph component *)

(** Every node with an id has the id ["n-"] followed by its own, so two
    nodes get the same one only when their own ids are the same; every
    edge has an id that starts with ["e-"], so no node shares an id with
    an edge.  A node whose own id is the empty string is not recognised
    as a node, and asking for its id is a TypeError. *)
Theorem getId_separates_nodes_and_edges :
  (forall node, id node <> ""%string ->
     isNode (NodeElement node) = true
     /\ getId (NodeElement node) = Ok ("n-" ++ id node)%string)
  /\ (forall node, id node = ""%string ->
        isNode (NodeElement node) = false
        /\ isEdge (NodeElement node) = false
        /\ getId (NodeElement node) = Throw TypeError)
  /\ (forall edge,
        getId (EdgeElement edge)
        = Ok ("e-" ++ id (src edge) ++ "-" ++ id (dest edge))%string)
  /\ (forall n1 n2 s,
        getId (NodeElement n1) = Ok s -> getId (NodeElement n2) = Ok s ->
        id n1 = id n2)
  /\ (forall node edge s,
        getId (NodeElement node) = Ok s -> getId (EdgeElement edge) <> Ok s).
Proof.
  assert (Hnode : forall node s,
             getId (NodeElement node) = Ok s -> s = ("n-" ++ id node)%string).
  { intros node s. unfold getId, isNode.
    destruct (truthy (id node)); intros H; inversion H. reflexivity. }
  split; [|split; [|split; [|split]]].
  - intros node H. unfold getId, isNode, truthy.
    apply String.eqb_neq in H. rewrite H. split; reflexivity.
  - intros node H. unfold getId, isNode, truthy. rewrite H.
    repeat split; reflexivity.
  - reflexivity.
  - intros n1 n2 s H1 H2. apply Hnode in H1, H2. rewrite H1 in H2.
    now inversion H2.
  - intros node edge s H1 H2. apply Hnode in H1. cbn in H2.
    rewrite H1 in H2. inversion H2.
Qed.

(** Two nodes called "a" and "b". *)
Lemma getId_separates_nodes_and_edges_witness :
  getId (NodeElement (mkNode "a" None None 10 10)) = Ok "n-a"%string
  /\ getId (NodeElement (mkNode "" None None 10 10)) = Throw TypeError.
Proof.
  destruct getId_separates_nodes_and_edges as [H1 [H2 _]].
  split.
  - apply (H1 (mkNode "a" None None 10 10)). discriminate.
  - apply (H2 (mkNode "" None None 10 10)). reflexivity.
Defined.

Lemma digits_inj (a b : Z) : digits a = digits b -> a = b.
Proof.
  unfold digits. intros H.
  assert (Hnorm : forall z, Z.to_int z <> Decimal.Pos Decimal.Nil
                            /\ Z.to_int z <> Decimal.Neg Decimal.Nil).
  { intros z. rewrite <- (DecimalZ.of_to z), DecimalZ.to_of.
    destruct (Z.to_int z) as [u|u]; unfold Decimal.norm.
    - split; [|discriminate]. intros E. inversion E as [E'].
      now apply DecimalFacts.unorm_nonnil in E'.
    - destruct (Decimal.nzhead u) eqn:En; split; discriminate. }
  apply DecimalZ.to_int_inj.
  destruct (Hnorm a) as [Ha1 Ha2]. destruct (Hnorm b) as [Hb1 Hb2].
  pose proof (NilZero.isi _ Ha1 Ha2) as Ea.
  pose proof (NilZero.isi _ Hb1 Hb2) as Eb.
  rewrite H in Ea. rewrite Ea in Eb. now inversion Eb.
Qed.

Lemma has_In (s : StringSet) (v : string) : has s v = true <-> In v s.
Proof.
  unfold has. rewrite existsb_exists. split.
  - intros [x [Hx Heq]]. apply String.eqb_eq in Heq. now subst.
  - intros H. exists v. split; [exact H | apply String.eqb_refl].
Qed.

Lemma getNewNodeId_loop_finds (fuel : nat) (ids bound : StringSet) (m : Z) :
  (List.length bound < fuel)%nat ->
  (forall j, (m <= j)%Z -> In ("n" ++ digits j)%string ids ->
             In ("n" ++ digits j)%string bound) ->
  exists k,
    getNewNodeId_loop fuel ids m = Some k
    /\ (m <= k)%Z
    /\ ~ In ("n" ++ digits k)%string ids
    /\ forall j, (m <= j < k)%Z -> In ("n" ++ digits j)%string ids.
Proof.
  revert bound m. induction fuel as [|fuel IH]; intros bound m Hlen Hbound.
  - lia.
  - cbn [getNewNodeId_loop].
    destruct (has ids ("n" ++ digits m)%string) eqn:E.
    + apply has_In in E.
      destruct (IH (remove string_dec ("n" ++ digits m)%string bound) (m + 1)%Z)
        as [k [Hk [Hmk [Hfresh Hbelow]]]].
      * pose proof (remove_length_lt string_dec bound _ (Hbound m (Z.le_refl m) E)).
        lia.
      * intros j Hj Hin. apply in_in_remove.
        -- intros Heq. inversion Heq as [Hd]. apply digits_inj in Hd. lia.
        -- apply Hbound; [lia | exact Hin].
      * exists k. split; [exact Hk|]. split; [lia|]. split; [exact Hfresh|].
        intros j Hj. destruct (Z.eq_dec j m) as [->|Hne]; [exact E|].
        apply Hbelow. lia.
    + exists m. split; [reflexivity|]. split; [lia|]. split.
      * intros Hin. apply has_In in Hin. congruence.
      * intros j Hj. lia.
Qed.

Lemma getNewNodeId_step (fuel : nat) (st : NodeIdState) :
  (List.length (nodeIds st) < fuel)%nat ->
  exists k,
    getNewNodeId fuel st
    = Some (("n" ++ digits k)%string,
            mkNodeIdState (nodeIds st ++ [("n" ++ digits k)%string]) k)
    /\ (maxNodeId st <= k)%Z
    /\ ~ In ("n" ++ digits k)%string (nodeIds st)
    /\ forall j, (maxNodeId st <= j < k)%Z ->
                 In ("n" ++ digits j)%string (nodeIds st).
Proof.
  intros Hf.
  destruct (getNewNodeId_loop_finds fuel (nodeIds st) (nodeIds st)
                                    (maxNodeId st) Hf)
    as [k [Hk [Hmk [Hfresh Hbelow]]]]; [auto|].
  exists k. unfold getNewNodeId. rewrite Hk. cbv zeta. unfold add.
  destruct (has (nodeIds st) ("n" ++ digits k)%string) eqn:E.
  - apply has_In in E. contradiction.
  - repeat split; assumption.
Qed.

(** [getNewNodeId] comes back after at most one test more than there are
    ids in the set.  Its result is ["n"] followed by the lowest number,
    from the counter upwards, that is not taken: the id was not in the
    set, every lower number from the counter on is, the id is added to
    the set and the counter stays on that number.  The next call
    therefore returns a different id. *)
Theorem getNewNodeId_lowest_free (fuel fuel' : nat) (st : NodeIdState) :
  (List.length (nodeIds st) < fuel)%nat ->
  (S (List.length (nodeIds st)) < fuel')%nat ->
  exists k newId st1,
    getNewNodeId fuel st = Some (newId, st1)
    /\ newId = ("n" ++ digits k)%string
    /\ (maxNodeId st <= k)%Z
    /\ ~ In newId (nodeIds st)
    /\ (forall j, (maxNodeId st <= j < k)%Z ->
                  In ("n" ++ digits j)%string (nodeIds st))
    /\ nodeIds st1 = nodeIds st ++ [newId]
    /\ maxNodeId st1 = k
    /\ exists newId2 st2,
         getNewNodeId fuel' st1 = Some (newId2, st2) /\ newId2 <> newId.
Proof.
  intros Hfuel Hfuel'.
  pose proof getNewNodeId_step as Hstep.
  destruct (Hstep fuel st Hfuel) as [k [Hrun [Hmk [Hfresh Hbelow]]]].
  set (newId := ("n" ++ digits k)%string) in *.
  set (st1 := mkNodeIdState (nodeIds st ++ [newId]) k) in *.
  exists k, newId, st1.
  split; [exact Hrun|]. split; [reflexivity|]. split; [exact Hmk|].
  split; [exact Hfresh|]. split; [exact Hbelow|].
  split; [reflexivity|]. split; [reflexivity|].
  destruct (Hstep fuel' st1) as [k2 [Hrun2 [_ [Hfresh2 _]]]].
  { subst st1. cbn [nodeIds]. rewrite length_app. cbn [List.length]. lia. }
  do 2 eexists. split; [exact Hrun2|].
  intros Heq. apply Hfresh2. rewrite Heq. subst st1. cbn [nodeIds].
  apply in_or_app. right. now left.
Qed.

(** A component whose set holds "n0", "n1" and "n3", the counter at 0:
    the new id is "n2" or some other id that is not in the set. *)
Lemma getNewNodeId_lowest_free_witness :
  exists newId st1,
    getNewNodeId 4 (mkNodeIdState ["n0"; "n1"; "n3"]%string 0) = Some (newId, st1)
    /\ ~ In newId ["n0"; "n1"; "n3"]%string.
Proof.
  destruct (getNewNodeId_lowest_free
              4 5 (mkNodeIdState ["n0"; "n1"; "n3"]%string 0))
    as [k [newId [st1 [Hrun [_ [_ [Hfresh _]]]]]]]; try (cbn; lia).
  exists newId, st1. split; [exact Hrun | exact Hfresh].
Defined.

Lemma add_In (s : StringSet) (v x : string) :
  In x (add s v) <-> In x s \/ x = v.
Proof.
  unfold add. destruct (has s v) eqn:E.
  - apply has_In in E. split; [tauto|]. intros [H| ->]; assumption.
  - rewrite in_app_iff. cbn. split.
    + intros [H|[H|[]]]; [now left | right; now symmetry].
    + intros [H|H]; [now left | right; left; now symmetry].
Qed.

Lemma add_length (s : StringSet) (v : string) :
  (List.length (add s v) <= S (List.length s))%nat.
Proof.
  unfold add. destruct (has s v); [lia|].
  rewrite length_app. cbn. lia.
Qed.

(** After [updateNodeIds] the set holds exactly the ids of the nodes of
    the graph and the counter is back at 0; the id [getNewNodeId] then
    returns is the id of no node of the graph. *)
Theorem new_id_after_update_is_unused (nodes : list Node) (fuel : nat) :
  (List.length nodes < fuel)%nat ->
  let st := updateNodeIds nodes in
  maxNodeId st = 0%Z
  /\ (forall s, In s (nodeIds st) <-> exists node, In node nodes /\ id node = s)
  /\ exists newId st1,
       getNewNodeId fuel st = Some (newId, st1)
       /\ forall node, In node nodes -> id node <> newId.
Proof.
  intros Hfuel st.
  assert (Hfold : forall (l : list Node) (acc : StringSet),
             (forall s, In s (fold_left (fun s0 node => add s0 (id node)) l acc)
                        <-> In s acc \/ exists node, In node l /\ id node = s)
             /\ (List.length (fold_left (fun s0 node => add s0 (id node)) l acc)
                 <= List.length acc + List.length l)%nat).
  { induction l as [|n l IH]; intros acc; cbn [fold_left].
    - split; [|cbn; lia]. intros s. split; [tauto|].
      intros [H|[node [[] _]]]. exact H.
    - destruct (IH (add acc (id n))) as [IHin IHlen]. split.
      + intros s. rewrite IHin, add_In. split.
        * intros [[H|H]|[node [Hn Hid]]].
          -- now left.
          -- right. exists n. split; [now left | now symmetry].
          -- right. exists node. split; [now right | exact Hid].
        * intros [H|[node [[->|Hn] Hid]]].
          -- left. now left.
          -- left. right. now symmetry.
          -- right. now exists node.
      + pose proof (add_length acc (id n)). cbn [List.length]. lia. }
  destruct (Hfold nodes []) as [Hin Hlen].
  split; [reflexivity|]. split.
  - intros s. unfold st, updateNodeIds. cbn [nodeIds]. rewrite Hin.
    split; [intros [[]|H]; exact H | now right].
  - destruct (getNewNodeId_step fuel st) as [k [Hrun [_ [Hfresh _]]]].
    + unfold st, updateNodeIds. cbn [nodeIds]. cbn in Hlen. lia.
    + do 2 eexists. split; [exact Hrun|].
      intros node Hn Heq. apply Hfresh.
      unfold st, updateNodeIds. cbn [nodeIds]. apply Hin. right.
      now exists node.
Qed.

(** A graph with the nodes "n0" and "start". *)
Lemma new_id_after_update_is_unused_witness :
  let nodes := [mkNode "n0" None None 10 10; mkNode "start" None None 10 10] in
  exists newId st1,
    getNewNodeId 3 (updateNodeIds nodes) = Some (newId, st1)
    /\ forall node, In node nodes -> id node <> newId.
Proof.
  intros nodes.
  assert (H : (List.length nodes < 3)%nat) by (cbn; lia).
  exact (proj2 (proj2 (new_id_after_update_is_unused nodes 3 H))).
Defined.

(** * The reset, on the modelled engine *)

(** [reset] on an engine with the zoom limits 0.1 and 2 and a graph that
    has a width and a height: the pan and the zoom animation are
    cancelled, and the zoom ends between 0.1 and 1.  It is 1 when the
    graph would fit at a larger zoom, and the fitting zoom less 4 percent
    when that zoom is at most 1 (and not so small that the lower limit
    cuts in). *)
Theorem reset_fits_without_zooming_in (c : GraphCamera) :
  configured (panZoom c) ->
  let el := svgEl c in
  vb_width (measuredBBox el) <> 0 ->
  vb_height (measuredBBox el) <> 0 ->
  let fitting := Rmin (measuredWidth el / vb_width (measuredBBox el))
                      (measuredHeight el / vb_height (measuredBBox el)) in
  exists c',
    reset c = Ok c'
    /\ 0.1 <= getZoom c' <= 1
    /\ (1 < fitting -> getZoom c' = 1)
    /\ (0.1 / 0.96 <= fitting <= 1 -> getZoom c' = fitting * (1 - 0.04))
    /\ isActive (stopSmoothPanFn c') = false
    /\ isActive (stopSmoothZoomFn c') = false.
Proof.
  intros [Hmin [Hmax _]] el Hw Hh fitting.
  unfold reset, fitWithoutZoomingIn, SvgPanZoom.fitZoom.
  cbn [panZoom set_panZoom set_stopSmoothZoomFn set_stopSmoothPanFn svgEl
       SvgPanZoom.centerPan SvgPanZoom.pan SvgPanZoom.resize
       SvgPanZoom.updateBBox SvgPanZoom.sizes s_width s_height viewBox].
  fold el. rewrite (divide_Ok _ _ Hw), (divide_Ok _ _ Hh). cbn [bind].
  fold fitting.
  unfold SvgPanZoom.zoom, SvgPanZoom.getZoom.
  cbn [SvgPanZoom.currentZoom SvgPanZoom.options panZoom set_panZoom].
  change (SvgPanZoom.options
            (SvgPanZoom.centerPan
               (SvgPanZoom.resize el (SvgPanZoom.updateBBox el (panZoom c)))))
    with (SvgPanZoom.options (panZoom c)).
  rewrite Hmin, Hmax. unfold FIT_PADDING_PERCENT.
  destruct (Rgtb (Rmax 0.1 (Rmin 2 fitting)) 1) eqn:E;
    [apply Rgtb_true_iff in E | apply Rgtb_false_iff in E];
    eexists; (split; [reflexivity|]);
    unfold getZoom, SvgPanZoom.getZoom;
    cbn [SvgPanZoom.currentZoom panZoom set_panZoom stopSmoothPanFn
         stopSmoothZoomFn set_stopSmoothPanFn set_stopSmoothZoomFn];
    generalize dependent fitting; intros fitting E;
    (split; [revert E; minmax|]); (split; [intros H1; revert E; minmax|]);
    (split; [intros H2; revert E; minmax|]);
    split; apply callStopFn_inactive.
Qed.

(** A graph of 1600 by 300 on a canvas of 800 by 600. *)
Lemma reset_fits_without_zooming_in_witness :
  let el := mkSVGElement true (mkRect 0 0 600 800) 800 600
                         (mkViewBox 0 0 1600 300) in
  let opts := mkOptions false false true ZOOM_SENSITIVITY None true 0.1 2 false
                        beforePanHook in
  let c := mkGraphCamera el (SvgPanZoom.create el opts) None None None None
                         false 0 in
  exists c', reset c = Ok c' /\ 0.1 <= getZoom c' <= 1.
Proof.
  intros el opts c.
  destruct (reset_fits_without_zooming_in c) as [c' [Hrun [Hz _]]].
  - repeat split; reflexivity.
  - cbn. lra.
  - cbn. lra.
  - exists c'. split; [exact Hrun | exact Hz].
Defined.
